(** * Mega da Virada results checker: a shallow embedding of [src/main.js]

    The script keeps three variables ([drawnNumbers], [lastBestPrizeLevel],
    [GAMES]) and a handful of DOM nodes.  The embedding below follows the
    script function by function:

    - [fetchGames]       : the loader, from the parsed [games.json] value;
    - [renderGamesTable] : hit computation, filter, sort and prize tally;
    - [updateWinnerUI]   : the winner banner and the celebration gate;
    - [handleGridClick], [handleClear] and the filter switch: the handlers.

    Conventions.
    - A JavaScript string is a [string], one [ascii] per UTF-16 code unit
      (code units below 256).
    - A JSON number is the integer it denotes ([JNum]); the model is exact
      for safe integers (magnitude at most 2^53), which is what a ticket
      file holds.
    - A thrown exception is the [Throw] case of [completion]. *)

From Stdlib Require Import ZArith String Ascii List Lia DecimalString.
From Stdlib Require Import Sorting.Sorted.
From Stdlib Require Import DecimalPos.
From stdpp Require Import base option list gmap sets strings sorting.

Local Set Warnings "-register-all".
Local Open Scope string_scope.
Local Open Scope Z_scope.

(** ** Completions: normal return or thrown exception *)

Inductive error := TypeError | HttpError (status : Z) | SyntaxError | NetworkError.

Inductive completion (A : Type) :=
| Normal (a : A)
| Throw (e : error).
Arguments Normal {A} a.
Arguments Throw {A} e.

Global Instance completion_ret : MRet completion := @Normal.

Global Instance completion_bind : MBind completion := fun A B k c =>
  match c with
  | Normal a => k a
  | Throw e => Throw e
  end.

Global Instance completion_fmap : FMap completion := fun A B f c =>
  match c with
  | Normal a => Normal (f a)
  | Throw e => Throw e
  end.

Definition throws {A} (c : completion A) : Prop := ∃ e, c = Throw e.

(** ** JavaScript values that [JSON.parse] can produce *)

(** [JObj l] lists the object's own properties in the order in which
    [for ... in] enumerates them. *)
Inductive json :=
| JNull
| JBool (b : bool)
| JNum (z : Z)
| JStr (s : string)
| JArr (l : list json)
| JObj (l : list (string * json)).

(** A JavaScript number as the script meets it: [parseInt] yields an
    integer or [NaN]. *)
Inductive number :=
| NaN
| Int (z : Z).

Definition isArray (v : json) : bool :=
  match v with
  | JArr _ => true
  | _ => false
  end.

(** *** String conversion *)

Definition string_of_nat (n : nat) : string :=
  NilZero.string_of_uint (Nat.to_uint n).

Definition string_of_Z (z : Z) : string :=
  NilZero.string_of_int (Z.to_int z).

Definition has_own (key : string) (l : list (string * json)) : bool :=
  existsb (fun p => String.eqb (fst p) key) l.

(** [ToString] of the language standard.  An array is joined with commas,
    [null] elements giving the empty string.  A parsed object prints as
    [[object Object]] unless it carries an own [toString] property, which
    is then not callable, and the conversion throws.  A number prints as
    its decimal digits, which is what the language does for safe integers
    (magnitude at most 2^53 - 1); beyond them a double rounds, and from
    10^21 on it prints in exponent form, which the model does not follow. *)
Fixpoint ToString (v : json) : completion string :=
  match v with
  | JNull => Normal "null"
  | JBool true => Normal "true"
  | JBool false => Normal "false"
  | JNum z => Normal (string_of_Z z)
  | JStr s => Normal s
  | JArr l =>
      let element x :=
        match x with
        | JNull => Normal ""
        | _ => ToString x
        end in
      (fix join (l : list json) : completion string :=
         match l with
         | [] => Normal ""
         | [x] => element x
         | x :: rest => s ← element x ; r ← join rest ; Normal (s ++ "," ++ r)
         end) l
  | JObj l =>
      if has_own "toString" l then Throw TypeError else Normal "[object Object]"
  end.

(** *** [parseInt(_, 10)] *)

Definition is_white_space (c : ascii) : bool :=
  let n := nat_of_ascii c in
  ((9 <=? n) && (n <=? 13) || (n =? 32) || (n =? 160))%nat.

Definition digit_of (c : ascii) : option Z :=
  let n := nat_of_ascii c in
  if ((48 <=? n) && (n <=? 57))%nat then Some (Z.of_nat (n - 48)) else None.

Fixpoint skip_white_space (s : string) : string :=
  match s with
  | String c s' => if is_white_space c then skip_white_space s' else s
  | EmptyString => s
  end.

(** The value of the longest prefix of decimal digits; [None] when that
    prefix is empty. *)
Fixpoint read_digits (s : string) (acc : option Z) : option Z :=
  match s with
  | String c s' =>
      match digit_of c with
      | Some d => read_digits s' (Some (10 * default 0 acc + d))
      | None => acc
      end
  | EmptyString => acc
  end.

(** [parseInt(s, 10)]: leading white space, one optional sign, then the
    longest run of decimal digits.  The value is computed exactly; the
    language rounds it to a double, so the two agree when the digits
    denote a safe integer. *)
Definition parseInt_string (s : string) : number :=
  let s := skip_white_space s in
  let '(sign, s) :=
    match s with
    | String "-" r => (-1, r)
    | String "+" r => (1, r)
    | _ => (1, s)
    end in
  match read_digits s None with
  | Some m => Int (sign * m)
  | None => NaN
  end.

Definition parseInt (v : json) : completion number :=
  s ← ToString v ; Normal (parseInt_string s).

(** ** Games *)

Record game := {
  id : string;
  sanitizedId : string;
  numbers : list number;
  source : string
}.

Definition is_id_char (c : ascii) : bool :=
  let n := nat_of_ascii c in
  ((48 <=? n) && (n <=? 57) || (65 <=? n) && (n <=? 90)
   || (97 <=? n) && (n <=? 122) || (n =? 45))%nat.

Fixpoint sanitizeForHtml (str : string) : string :=
  match str with
  | String c s => String (if is_id_char c then c else "_"%char) (sanitizeForHtml s)
  | EmptyString => EmptyString
  end.

(** ** The loader *)

Fixpoint mapM {A B} (f : A → completion B) (l : list A) : completion (list B) :=
  match l with
  | [] => Normal []
  | x :: rest => y ← f x ; ys ← mapM f rest ; Normal (y :: ys)
  end.

(** [betNumbers.map(num => parseInt(num, 10))]: only an array has a [map]
    method among parsed values. *)
Definition map_parseInt (betNumbers : json) : completion (list number) :=
  match betNumbers with
  | JArr nums => mapM parseInt nums
  | _ => Throw TypeError
  end.

(** The [forEach] of a multi-bet ticket; [index] is the position of the
    first element of [bets] in the ticket. *)
Fixpoint forEach_bets (id0 : string) (bets : list json) (index : nat)
    (processedGames : list game) : completion (list game) :=
  match bets with
  | [] => Normal processedGames
  | betNumbers :: rest =>
      nums ← map_parseInt betNumbers ;
      forEach_bets id0 rest (S index)
        (processedGames ++
           [{| id := id0 ++ "-" ++ string_of_nat (index + 1);
               sanitizedId := sanitizeForHtml id0 ++ "-" ++ string_of_nat (index + 1);
               numbers := nums;
               source := id0 |}])
  end.

(** The properties [for (const id in gamesData)] runs over. *)
Fixpoint index_keys {A} (l : list A) (i : nat) : list (string * A) :=
  match l with
  | [] => []
  | x :: rest => (string_of_nat i, x) :: index_keys rest (S i)
  end.

Definition properties (gamesData : json) : list (string * json) :=
  match gamesData with
  | JObj l => l
  | JArr l => index_keys l 0
  | JStr s => index_keys (map (fun c => JStr (String c EmptyString)) (list_ascii_of_string s)) 0
  | _ => []
  end.

(** [Array.isArray(bets[0])]; [bets[0]] of an empty array is [undefined]. *)
Definition first_isArray (bets : list json) : bool :=
  match head bets with
  | Some first => isArray first
  | None => false
  end.

(** The body of the [for ... in] loop, one property at a time. *)
Fixpoint load_loop (props : list (string * json)) (processedGames : list game)
    : completion (list game) :=
  match props with
  | [] => Normal processedGames
  | (id0, bets) :: rest =>
      if String.eqb id0 "_comment" then load_loop rest processedGames
      else
        match bets with
        | JArr elements =>
            if first_isArray elements then
              gs ← forEach_bets id0 elements 0 processedGames ;
              load_loop rest gs
            else
              nums ← mapM parseInt elements ;
              load_loop rest
                (processedGames ++
                   [{| id := id0;
                       sanitizedId := sanitizeForHtml id0;
                       numbers := nums;
                       source := id0 |}])
        | _ => load_loop rest processedGames
        end
  end.

Definition process (gamesData : json) : completion (list game) :=
  load_loop (properties gamesData) [].

(** What [fetch('games.json')] and [response.json()] deliver. *)
Inductive fetched :=
| Rejected
| Response (ok : bool) (status : Z) (body : option json).

(** The [try] block of [fetchGames]. *)
Definition try_fetchGames (r : fetched) : completion (list game) :=
  match r with
  | Rejected => Throw NetworkError
  | Response false status _ => Throw (HttpError status)
  | Response true _ None => Throw SyntaxError
  | Response true _ (Some gamesData) => process gamesData
  end.

(** ** Application state *)

(** A game object once [renderGamesTable] has stored [hitsCount] and [hits]
    on it.  Every call rewrites both fields of every game before reading
    any, so they travel with the call rather than with [GAMES]. *)
Record scored := {
  game_of : game;
  hitsCount : nat;
  hits : list number
}.

Inductive table_body :=
| Rows (rows : list scored)
| ErrorLoadingGames.

Record winner_banner := {
  show : bool;
  winnerTitle : string;
  winnerCounts : list (nat * string);
  winnerGames : list (string * list string)
}.

Record page := {
  drawnNumbers : gset Z;
  lastBestPrizeLevel : nat;
  GAMES : list game;
  filterSwitch : bool;
  gamesTableBody : table_body;
  winnerBanner : winner_banner;
  celebrations : list nat
}.

Definition initial : page :=
  {| drawnNumbers := ∅;
     lastBestPrizeLevel := 0;
     GAMES := [];
     filterSwitch := false;
     gamesTableBody := Rows [];
     winnerBanner := {| show := false; winnerTitle := ""; winnerCounts := []; winnerGames := [] |};
     celebrations := [] |}.

Definition set_drawnNumbers (d : gset Z) (st : page) : page :=
  {| drawnNumbers := d;
     lastBestPrizeLevel := lastBestPrizeLevel st;
     GAMES := GAMES st;
     filterSwitch := filterSwitch st;
     gamesTableBody := gamesTableBody st;
     winnerBanner := winnerBanner st;
     celebrations := celebrations st |}.

Definition set_GAMES (gs : list game) (st : page) : page :=
  {| drawnNumbers := drawnNumbers st;
     lastBestPrizeLevel := lastBestPrizeLevel st;
     GAMES := gs;
     filterSwitch := filterSwitch st;
     gamesTableBody := gamesTableBody st;
     winnerBanner := winnerBanner st;
     celebrations := celebrations st |}.

Definition set_filterSwitch (b : bool) (st : page) : page :=
  {| drawnNumbers := drawnNumbers st;
     lastBestPrizeLevel := lastBestPrizeLevel st;
     GAMES := GAMES st;
     filterSwitch := b;
     gamesTableBody := gamesTableBody st;
     winnerBanner := winnerBanner st;
     celebrations := celebrations st |}.

Definition set_gamesTableBody (t : table_body) (st : page) : page :=
  {| drawnNumbers := drawnNumbers st;
     lastBestPrizeLevel := lastBestPrizeLevel st;
     GAMES := GAMES st;
     filterSwitch := filterSwitch st;
     gamesTableBody := t;
     winnerBanner := winnerBanner st;
     celebrations := celebrations st |}.

(** [fetchGames]: the [try] block and its [catch]. *)
Definition fetchGames (r : fetched) (st : page) : page :=
  match try_fetchGames r with
  | Normal processedGames => set_GAMES processedGames st
  | Throw _ => set_gamesTableBody ErrorLoadingGames st
  end.

(** ** The results table *)

(** [drawnNumbers.has(num)].  The set only ever receives the integers the
    grid buttons carry, so [NaN] is never a member. *)
Definition has (drawn : gset Z) (num : number) : bool :=
  match num with
  | Int z => bool_decide (z ∈ drawn)
  | NaN => false
  end.

(** Step 1 of [renderGamesTable]. *)
Definition calculate_hits (drawn : gset Z) (g : game) : scored :=
  let hits0 := List.filter (fun num => has drawn num) (numbers g) in
  {| game_of := g; hitsCount := length hits0; hits := hits0 |}.

(** [Array.prototype.sort] with a comparator.  The standard makes the sort
    stable, so with a consistent comparator the result does not depend on
    the engine's algorithm; insertion from the right is one such sort. *)
Fixpoint sort_insert {A} (compareFn : A → A → Z) (x : A) (l : list A) : list A :=
  match l with
  | [] => [x]
  | y :: rest =>
      if 0 <? compareFn x y then y :: sort_insert compareFn x rest else x :: l
  end.

Definition sort {A} (compareFn : A → A → Z) (l : list A) : list A :=
  foldr (sort_insert compareFn) [] l.

Definition by_most_hits (a b : scored) : Z :=
  Z.of_nat (hitsCount b) - Z.of_nat (hitsCount a).

(** Steps 1 and 2: the games the table shows, in row order. *)
Definition gamesToRender (games : list game) (drawn : gset Z) (checked : bool)
    : list scored :=
  let scoredGames := map (calculate_hits drawn) games in
  if checked
  then sort by_most_hits (List.filter (fun g => (0 <? hitsCount g)%nat) scoredGames)
  else scoredGames.

Record tallies := {
  prizeCounts : gmap nat nat;
  winningGameIds : gmap nat (list string);
  bestPrizeThisCheck : nat
}.

Definition no_prizes : tallies :=
  {| prizeCounts := {[4%nat := 0%nat; 5%nat := 0%nat; 6%nat := 0%nat]};
     winningGameIds := {[4%nat := []; 5%nat := []; 6%nat := []]};
     bestPrizeThisCheck := 0 |}.

(** The tally inside the row loop.  For a hit count with no entry (seven or
    more), [winningGameIds[hitsCount]] is [undefined] and [push] throws. *)
Definition tally_game (t : tallies) (g : scored) : completion tallies :=
  let h := hitsCount g in
  if (4 <=? h)%nat then
    match winningGameIds t !! h with
    | Some ids =>
        Normal {| prizeCounts := alter S h (prizeCounts t);
                  winningGameIds := <[h := (ids ++ [id (game_of g)])%list]> (winningGameIds t);
                  bestPrizeThisCheck :=
                    if (bestPrizeThisCheck t <? h)%nat then h else bestPrizeThisCheck t |}
    | None => Throw TypeError
    end
  else Normal t.

Fixpoint forEach_tally (rows : list scored) (t : tallies) : completion tallies :=
  match rows with
  | [] => Normal t
  | g :: rest => t' ← tally_game t g ; forEach_tally rest t'
  end.

(** ** The winner banner *)

Definition triggerCelebration (prizeLevel : nat) (log : list nat) : list nat :=
  (log ++ [prizeLevel])%list.

Definition truthy (c : option nat) : bool :=
  match c with
  | Some (S _) => true
  | _ => false
  end.

Definition shown_counts (t : tallies) : list (nat * string) :=
  let line (tier : nat) (label : string) :=
    if truthy (prizeCounts t !! tier) then [(default 0%nat (prizeCounts t !! tier), label)] else [] in
  (line 6%nat "Sena" ++ line 5%nat "Quina" ++ line 4%nat "Quadra")%list.

Definition shown_games (t : tallies) : list (string * list string) :=
  let line (tier : nat) (label : string) :=
    match winningGameIds t !! tier with
    | Some (g :: ids) => [(label, g :: ids)]
    | _ => []
    end in
  (line 6%nat "Sena" ++ line 5%nat "Quina" ++ line 4%nat "Quadra")%list.

Definition updateWinnerUI (t : tallies) (st : page) : page :=
  let best := bestPrizeThisCheck t in
  if (best <? 4)%nat then
    {| drawnNumbers := drawnNumbers st;
       lastBestPrizeLevel := 0;
       GAMES := GAMES st;
       filterSwitch := filterSwitch st;
       gamesTableBody := gamesTableBody st;
       winnerBanner :=
         {| show := false;
            winnerTitle := winnerTitle (winnerBanner st);
            winnerCounts := winnerCounts (winnerBanner st);
            winnerGames := winnerGames (winnerBanner st) |};
       celebrations := celebrations st |}
  else
    {| drawnNumbers := drawnNumbers st;
       lastBestPrizeLevel := best;
       GAMES := GAMES st;
       filterSwitch := filterSwitch st;
       gamesTableBody := gamesTableBody st;
       winnerBanner :=
         {| show := true;
            winnerTitle :=
              if (best =? 6)%nat then "SENA!"
              else if (best =? 5)%nat then "QUINA!" else "QUADRA!";
            winnerCounts := shown_counts t;
            winnerGames := shown_games t |};
       celebrations :=
         if (lastBestPrizeLevel st <? best)%nat
         then triggerCelebration best (celebrations st)
         else celebrations st |}.

Definition renderGamesTable (st : page) : completion page :=
  let rows := gamesToRender (GAMES st) (drawnNumbers st) (filterSwitch st) in
  t ← forEach_tally rows no_prizes ;
  Normal (updateWinnerUI t (set_gamesTableBody (Rows rows) st)).

(** ** Event handlers *)

(** [updateAllUI] repaints the selection display and the grid, then
    renders the table. *)
Definition updateAllUI (st : page) : completion page :=
  renderGamesTable st.

(** An exception that escapes a listener ends it; what the listener had
    already changed stays changed. *)
Definition settle (st : page) (c : completion page) : page :=
  match c with
  | Normal st' => st'
  | Throw _ => st
  end.

(** The branch of [handleGridClick] that updates the set. *)
Definition toggle (num : Z) (drawn : gset Z) : gset Z :=
  if decide (num ∈ drawn) then drawn ∖ {[num]}
  else if decide (size drawn < 6)%nat then drawn ∪ {[num]}
  else drawn.

(** [target] is the number of the grid button that was hit, if any. *)
Definition handleGridClick (target : option Z) (st : page) : page :=
  match target with
  | Some num =>
      let st' := set_drawnNumbers (toggle num (drawnNumbers st)) st in
      settle st' (updateAllUI st')
  | None => st
  end.

Definition handleClear (st : page) : page :=
  let st' := set_drawnNumbers ∅ st in
  settle st' (updateAllUI st').

(** The browser flips the switch, then calls the listener, which is
    [renderGamesTable]. *)
Definition handleFilterChange (st : page) : page :=
  let st' := set_filterSwitch (negb (filterSwitch st)) st in
  settle st' (renderGamesTable st').

Definition init (r : fetched) : page :=
  let st := fetchGames r initial in
  settle st (renderGamesTable st).

Inductive event :=
| GridClick (target : option Z)
| ClearClick
| FilterChange.

Definition handle (st : page) (e : event) : page :=
  match e with
  | GridClick target => handleGridClick target st
  | ClearClick => handleClear st
  | FilterChange => handleFilterChange st
  end.

Definition run (st : page) (es : list event) : page := foldl handle st es.

(** ** Notions used in the statements *)

(** A run of evaluations: the banner update after each check in turn. *)
Definition evaluations (st : page) (checks : list tallies) : page :=
  foldl (fun st t => updateWinnerUI t st) st checks.

(** The tally of one check, as [renderGamesTable] computes it. *)
Definition check (games : list game) (drawn : gset Z) (checked : bool)
    : completion tallies :=
  forEach_tally (gamesToRender games drawn checked) no_prizes.

(** *** Shapes of ticket entries *)

(** [printable v]: converting [v] to a string meets no object with an own
    [toString] property. *)
Fixpoint printable (v : json) : bool :=
  match v with
  | JArr l => forallb printable l
  | JObj l => negb (has_own "toString" l)
  | _ => true
  end.

(** An element of a multi-bet the loader can turn into a game. *)
Definition processable_bet (betNumbers : json) : bool :=
  match betNumbers with
  | JArr nums => forallb printable nums
  | _ => false
  end.

(** An entry the loader gets through: anything that is not a sequence, a
    sequence of sequences of printable values, or a flat sequence of
    printable values. *)
Definition processable (bets : json) : bool :=
  match bets with
  | JArr elements =>
      if first_isArray elements then forallb processable_bet elements
      else forallb printable elements
  | _ => true
  end.

(** A parsed file all of whose entries, [_comment] apart, the loader gets
    through. *)
Definition loads_cleanly (gamesData : json) : bool :=
  forallb (fun entry => String.eqb (fst entry) "_comment" || processable (snd entry))
    (properties gamesData).

(** The number [parseInt] returns for a printable value. *)
Definition number_of (v : json) : number :=
  match parseInt v with
  | Normal n => n
  | Throw _ => NaN
  end.

Definition bet_numbers (betNumbers : json) : list number :=
  match betNumbers with
  | JArr nums => map number_of nums
  | _ => []
  end.

(** The games the specification asks of one entry: none for [_comment];
    for a sequence starting with a sequence, one game per inner sequence,
    in order, with the 1-based index appended to the ticket id; for a flat
    sequence, one game under the ticket id. *)
Definition expected_games (entry : string * json) : list game :=
  let '(id0, bets) := entry in
  if String.eqb id0 "_comment" then []
  else
    match bets with
    | JArr elements =>
        if first_isArray elements then
          imap (fun i betNumbers =>
                  {| id := id0 ++ "-" ++ string_of_nat (i + 1);
                     sanitizedId := sanitizeForHtml id0 ++ "-" ++ string_of_nat (i + 1);
                     numbers := bet_numbers betNumbers;
                     source := id0 |}) elements
        else
          [{| id := id0;
              sanitizedId := sanitizeForHtml id0;
              numbers := map number_of elements;
              source := id0 |}]
    | _ => []
    end.

(** The specification's valid bet: a sequence of six integers. *)
Definition valid_bet (v : json) : bool :=
  match v with
  | JArr nums =>
      (length nums =? 6)%nat
      && forallb (fun n => match n with JNum _ => true | _ => false end) nums
  | _ => false
  end.

(** The specification's malformed entry: neither a valid bet nor a
    non-empty sequence of valid bets. *)
Definition malformed (bets : json) : bool :=
  negb (valid_bet bets
        || match bets with
           | JArr (first :: rest) => forallb valid_bet (first :: rest)
           | _ => false
           end).

(** What the page announces: the banner, the stored level and the
    celebrations so far. *)
Definition announcement (st : page) : winner_banner * nat * list nat :=
  (winnerBanner st, lastBestPrizeLevel st, celebrations st).

(** Membership of a game number in the selection. *)
Definition drawn_member (drawn : gset Z) (num : number) : Prop :=
  ∃ z, num = Int z ∧ z ∈ drawn.

(** [selected drawn nums picked]: [picked] keeps, in order, exactly the
    elements of [nums] that are members of the selection. *)
Inductive selected (drawn : gset Z) : list number → list number → Prop :=
| selected_nil : selected drawn [] []
| selected_hit num nums picked :
    drawn_member drawn num → selected drawn nums picked →
    selected drawn (num :: nums) (num :: picked)
| selected_miss num nums picked :
    ¬ drawn_member drawn num → selected drawn nums picked →
    selected drawn (num :: nums) picked.

(** The tiers for which [triggerCelebration] is called along a run of
    checks with the given best tiers, [last] being the stored level. *)
Fixpoint fired (last : nat) (tiers : list nat) : list nat :=
  match tiers with
  | [] => []
  | best :: rest =>
      if (best <? 4)%nat then fired 0 rest
      else if (last <? best)%nat then best :: fired best rest
      else fired best rest
  end.

(** A check whose best tier is [best], nothing else being recorded. *)
Definition check_with_best (best : nat) : tallies :=
  {| prizeCounts := prizeCounts no_prizes;
     winningGameIds := winningGameIds no_prizes;
     bestPrizeThisCheck := best |}.

(** Example data: a ticket file with the single bet 1-2-3-4-5-6, and the
    page after loading it. *)
Definition ticket_A : json :=
  JObj [("A", JArr (map JNum [1; 2; 3; 4; 5; 6]))].

Definition page_A : page := init (Response true 200 (Some ticket_A)).

Definition clicks (nums : list Z) : list event :=
  map (fun num => GridClick (Some num)) nums.

(** The page with ticket A loaded and its six numbers selected. *)
Definition page_A_sena : page := run page_A (clicks [1; 2; 3; 4; 5; 6]).

(** The two-ticket file of the specification's scenario, and its draw. *)
Definition tickets_AB : json :=
  JObj [("A", JArr (map JNum [1; 2; 3; 4; 5; 6]));
        ("B", JArr (map JNum [1; 2; 3; 4; 60; 59]))].

Definition draw_1_to_6 : gset Z := {[1; 2; 3; 4; 5; 6]}.

(** The same two tickets, B written first. *)
Definition tickets_BA : json :=
  JObj [("B", JArr (map JNum [1; 2; 3; 4; 60; 59]));
        ("A", JArr (map JNum [1; 2; 3; 4; 5; 6]))].

(** A file with a short bet holding a word, a value that is no sequence,
    and an empty bet. *)
Definition tickets_malformed : json :=
  JObj [("T", JArr [JNum 1; JNum 2; JStr "x"]);
        ("U", JNum 5);
        ("V", JArr [])].

(** The multi-bet and single-bet files of the specification. *)
Definition ticket_multi : json :=
  JObj [("_comment", JStr "two bets on one ticket");
        ("T", JArr [JArr (map JNum [1; 2; 3; 4; 5; 6]);
                    JArr (map JNum [7; 8; 9; 10; 11; 12])])].

Definition ticket_single : json :=
  JObj [("T", JArr (map JNum [1; 2; 3; 4; 5; 6]))].

(** The order of the rows by hit count, most hits first. *)
Definition most_hits_first (a b : scored) : Prop :=
  (hitsCount b ≤ hitsCount a)%nat.

(** The rows with exactly [k] hits, in row order. *)
Definition with_hits (k : nat) (rows : list scored) : list scored :=
  List.filter (fun r => (hitsCount r =? k)%nat) rows.

(** ** The selection display and the number grid *)

(** [padStart(2, '0')] *)
Definition padStart2 (s : string) : string :=
  match String.length s with
  | 0%nat => "00"
  | 1%nat => "0" ++ s
  | _ => s
  end.

(** [Array.prototype.join] on strings. *)
Fixpoint join (separator : string) (l : list string) : string :=
  match l with
  | [] => ""
  | [x] => x
  | x :: rest => x ++ separator ++ join separator rest
  end.

(** The comparator [(a, b) => a - b]. *)
Definition ascending (a b : Z) : Z := a - b.

(** [renderResultDisplay].  [Array.from(drawnNumbers)] lists the set in
    insertion order; the sort that follows makes the order of the list
    irrelevant (see [sort_ascending_unique]), so the elements of the set
    are taken in whatever order. *)
Definition sortedNumbers (drawn : gset Z) : list Z :=
  sort ascending (elements drawn).

Definition renderResultDisplay (drawn : gset Z) : string :=
  match sortedNumbers drawn with
  | [] => "-"
  | _ => join "-" (map (fun n => padStart2 (string_of_Z n)) (sortedNumbers drawn))
  end.

(** A button of the grid: its label, its [data-number] attribute and
    whether it carries the class [selected]. *)
Record grid_button := {
  textContent : string;
  dataset_number : string;
  selected_class : bool
}.

(** [renderNumberGrid]: the loop [for (let i = 1; i <= 60; i++)]. *)
Definition renderNumberGrid (drawn : gset Z) : list grid_button :=
  map (fun i =>
         {| textContent := padStart2 (string_of_Z i);
            dataset_number := string_of_Z i;
            selected_class := bool_decide (i ∈ drawn) |})
      (seqZ 1 60).

(** The number [handleGridClick] reads off a button. *)
Definition button_number (b : grid_button) : number :=
  parseInt_string (dataset_number b).

(** Characters that a sanitized id is made of. *)
Definition is_safe_char (c : ascii) : Prop :=
  is_id_char c = true ∨ c = "_"%char.

(** The clicks of a run that hit a grid button carry a number from 1 to
    60, as the buttons of [renderNumberGrid] do. *)
Definition from_grid (e : event) : Prop :=
  match e with
  | GridClick (Some num) => 1 ≤ num ≤ 60
  | _ => True
  end.

(** A file with one bet that repeats a number seven times, and the page
    after loading it. *)
Definition ticket_sevenfold : json :=
  JObj [("S", JArr (map JNum [1; 1; 1; 1; 1; 1; 1]))].

Definition page_sevenfold : page := init (Response true 200 (Some ticket_sevenfold)).

(** The integer a game number stands for ([0] for [NaN]). *)
Definition integer_of (num : number) : Z :=
  match num with
  | Int z => z
  | NaN => 0
  end.

(** The banner [updateWinnerUI] shows for a tally with a prize. *)
Definition banner_of (t : tallies) : winner_banner :=
  {| show := true;
     winnerTitle :=
       if (bestPrizeThisCheck t =? 6)%nat then "SENA!"
       else if (bestPrizeThisCheck t =? 5)%nat then "QUINA!" else "QUADRA!";
     winnerCounts := shown_counts t;
     winnerGames := shown_games t |}.

(** The banner, the stored level and the celebrations agree with one
    another. *)
Definition banner_ok (st : page) : Prop :=
  (show (winnerBanner st) = true ↔ (4 ≤ lastBestPrizeLevel st)%nat) ∧
  (lastBestPrizeLevel st = 0%nat ∨ (4 ≤ lastBestPrizeLevel st ≤ 6)%nat) ∧
  (lastBestPrizeLevel st = 6%nat → winnerTitle (winnerBanner st) = "SENA!") ∧
  (lastBestPrizeLevel st = 5%nat → winnerTitle (winnerBanner st) = "QUINA!") ∧
  (lastBestPrizeLevel st = 4%nat → winnerTitle (winnerBanner st) = "QUADRA!") ∧
  Forall (fun tier => (4 ≤ tier ≤ 6)%nat) (celebrations st).

(** The table, the stored level and the banner are those of the tally of
    the current games, selection and switch, whenever that tally
    completes. *)
Definition synced (st : page) : Prop :=
  ∀ t, check (GAMES st) (drawnNumbers st) (filterSwitch st) = Normal t →
    lastBestPrizeLevel st = bestPrizeThisCheck t ∧
    gamesTableBody st =
      Rows (gamesToRender (GAMES st) (drawnNumbers st) (filterSwitch st)) ∧
    ((4 ≤ bestPrizeThisCheck t)%nat → winnerBanner st = banner_of t).

(** The tally of ticket A with its six numbers selected. *)
Definition tally_A_sena : tallies :=
  {| prizeCounts := {[4%nat := 0%nat; 5%nat := 0%nat; 6%nat := 1%nat]};
     winningGameIds := {[4%nat := []; 5%nat := []; 6%nat := ["A"]]};
     bestPrizeThisCheck := 6 |}.

(** Text that [parseInt] passes over before a number, and text at which
    it stops reading after one. *)
Definition all_white_space (w : string) : Prop :=
  Forall (fun c => is_white_space c = true) (list_ascii_of_string w).

Definition no_digit_ahead (rest : string) : Prop :=
  match rest with
  | String c _ => digit_of c = None
  | EmptyString => True
  end.

(** What is left of a text once [parseInt] has passed over leading white
    space and one optional sign, and whether a decimal digit comes next. *)
Definition unsigned_part (s : string) : string :=
  match skip_white_space s with
  | String "-" r => r
  | String "+" r => r
  | s' => s'
  end.

Definition starts_with_integer (s : string) : bool :=
  match unsigned_part s with
  | String c _ => bool_decide (is_Some (digit_of c))
  | EmptyString => false
  end.

(** The integers that a JavaScript number holds exactly and prints in
    plain decimal digits ([Number.isSafeInteger]). *)
Definition safe_integer (z : Z) : Prop :=
  (- (2 ^ 53 - 1) ≤ z ≤ 2 ^ 53 - 1)%Z.

Global Instance safe_integer_dec z : Decision (safe_integer z).
Proof. unfold safe_integer. apply _. Defined.



(** The text of one selected number on the results display. *)
Definition label (n : Z) : string := padStart2 (string_of_Z n).

(** A game as the table shows it when nothing is selected. *)
Definition no_hits (g : game) : scored :=
  {| game_of := g; hitsCount := 0; hits := [] |}.

Local Open Scope nat_scope.
Local Open Scope list_scope.

(** * Selection: capacity and toggling *)

Section selection.
Implicit Types (drawn : gset Z) (num : Z) (st : page).

Lemma toggle_member drawn num :
  num ∈ drawn → toggle num drawn = drawn ∖ {[num]}.
Proof. intros Hin. unfold toggle. by rewrite decide_True. Qed.

Lemma toggle_room drawn num :
  num ∉ drawn → size drawn < 6 → toggle num drawn = drawn ∪ {[num]}.
Proof.
  intros Hout Hroom. unfold toggle.
  rewrite decide_False by done. by rewrite decide_True.
Qed.

Lemma toggle_full drawn num :
  num ∉ drawn → 6 ≤ size drawn → toggle num drawn = drawn.
Proof.
  intros Hout Hfull. unfold toggle.
  rewrite decide_False by done. rewrite decide_False by lia. done.
Qed.

Lemma size_remove drawn num :
  num ∈ drawn → S (size (drawn ∖ {[num]})) = size drawn.
Proof.
  intros Hin.
  assert (Hsub : ({[num]} : gset Z) ⊆ drawn) by (by apply singleton_subseteq_l).
  rewrite (size_difference _ _ Hsub), size_singleton.
  assert (0 < size drawn); [|lia].
  destruct (decide (size drawn = 0)) as [Hz|]; [|lia].
  apply size_empty_inv in Hz. by apply Hz in Hin.
Qed.

Lemma size_add drawn num :
  num ∉ drawn → size (drawn ∪ {[num]}) = S (size drawn).
Proof.
  intros Hout. rewrite size_union by (by apply disjoint_singleton_r).
  rewrite size_singleton. lia.
Qed.

Lemma not_elem_of_remove drawn num : num ∉ drawn ∖ {[num]}.
Proof. rewrite elem_of_difference, elem_of_singleton. by intros [_ []]. Qed.

Lemma remove_add drawn num : num ∈ drawn → drawn ∖ {[num]} ∪ {[num]} = drawn.
Proof.
  intros Hin. apply set_eq. intros x.
  rewrite elem_of_union, elem_of_difference, elem_of_singleton.
  destruct (decide (x = num)) as [->|]; intuition congruence.
Qed.

Lemma add_remove drawn num : num ∉ drawn → (drawn ∪ {[num]}) ∖ {[num]} = drawn.
Proof.
  intros Hout. apply set_eq. intros x.
  rewrite elem_of_difference, elem_of_union, elem_of_singleton.
  destruct (decide (x = num)) as [->|]; intuition congruence.
Qed.

Lemma toggle_size_le drawn num :
  size drawn ≤ 6 → size (toggle num drawn) ≤ 6.
Proof.
  intros Hle. unfold toggle.
  destruct (decide (num ∈ drawn)) as [Hin|Hout].
  - pose proof (size_remove _ _ Hin). lia.
  - destruct (decide (size drawn < 6)); [|done].
    rewrite size_add by done. lia.
Qed.

Lemma updateWinnerUI_drawnNumbers t st :
  drawnNumbers (updateWinnerUI t st) = drawnNumbers st.
Proof. unfold updateWinnerUI. by destruct (_ <? _). Qed.

Lemma renderGamesTable_drawnNumbers st :
  drawnNumbers (settle st (renderGamesTable st)) = drawnNumbers st.
Proof.
  unfold renderGamesTable.
  destruct (forEach_tally _ _); simpl; [|done].
  by rewrite updateWinnerUI_drawnNumbers.
Qed.

Lemma drawnNumbers_set drawn st :
  drawnNumbers (set_drawnNumbers drawn st) = drawn.
Proof. reflexivity. Qed.

Lemma handle_size_le st e :
  size (drawnNumbers st) ≤ 6 → size (drawnNumbers (handle st e)) ≤ 6.
Proof.
  intros Hle. destruct e as [[num|]| |]; unfold handle; try done.
  - unfold handleGridClick, updateAllUI.
    rewrite renderGamesTable_drawnNumbers, drawnNumbers_set.
    by apply toggle_size_le.
  - unfold handleClear, updateAllUI.
    rewrite renderGamesTable_drawnNumbers, drawnNumbers_set, size_empty. lia.
  - unfold handleFilterChange. by rewrite renderGamesTable_drawnNumbers.
Qed.

Lemma run_size_le es : ∀ st,
  size (drawnNumbers st) ≤ 6 → size (drawnNumbers (run st es)) ≤ 6.
Proof.
  induction es as [|e es IH]; intros st Hle; simpl; [done|].
  apply IH. by apply handle_size_le.
Qed.

Lemma toggles_size_le nums : ∀ drawn,
  size drawn ≤ 6 → size (foldl (fun d n => toggle n d) drawn nums) ≤ 6.
Proof.
  induction nums as [|n nums IH]; intros drawn Hle; simpl; [done|].
  apply IH. by apply toggle_size_le.
Qed.

Lemma init_drawnNumbers r : drawnNumbers (init r) = ∅.
Proof.
  unfold init. rewrite renderGamesTable_drawnNumbers.
  unfold fetchGames. by destruct (try_fetchGames r).
Qed.

End selection.

(** C6. From the empty selection, no sequence of toggles, and no sequence
    of clicks, clears and filter changes of the running page, takes the
    selection beyond six numbers; a click on a seventh number while six are
    held leaves the selection as it was. *)
Theorem selection_never_exceeds_six :
  (∀ nums : list Z, size (foldl (fun d n => toggle n d) ∅ nums) ≤ 6) ∧
  (∀ (r : fetched) (es : list event), size (drawnNumbers (run (init r) es)) ≤ 6) ∧
  (∀ (drawn : gset Z) (num : Z),
     size drawn = 6 → num ∉ drawn → toggle num drawn = drawn) ∧
  (∀ (st : page) (num : Z),
     size (drawnNumbers st) = 6 → num ∉ drawnNumbers st →
     drawnNumbers (handleGridClick (Some num) st) = drawnNumbers st).
Proof.
  split; [|split; [|split]].
  - intros nums. apply toggles_size_le. rewrite size_empty. lia.
  - intros r es. apply run_size_le. rewrite init_drawnNumbers, size_empty. lia.
  - intros drawn num Hsize Hout. apply toggle_full; [done|lia].
  - intros st num Hsize Hout. unfold handleGridClick, updateAllUI.
    rewrite renderGamesTable_drawnNumbers, drawnNumbers_set.
    apply toggle_full; [done|lia].
Qed.

Lemma selection_never_exceeds_six_witness :
  toggle 7%Z ({[1; 2; 3; 4; 5; 6]}%Z : gset Z) = {[1; 2; 3; 4; 5; 6]}%Z.
Proof.
  apply (proj1 (proj2 (proj2 selection_never_exceeds_six))).
  - vm_compute. reflexivity.
  - vm_compute. intros H. discriminate H.
Defined.

(** C7. A second click on the same number undoes the first, unless the
    first was refused for lack of room; and a click on a selected number
    removes it whatever the size of the selection. *)
Theorem toggle_twice_restores :
  (∀ (drawn : gset Z) (num : Z),
     size drawn ≤ 6 → ¬ ((num ∉ drawn) ∧ size drawn = 6) →
     toggle num (toggle num drawn) = drawn) ∧
  (∀ (drawn : gset Z) (num : Z),
     num ∈ drawn → toggle num drawn = drawn ∖ {[num]} ∧ num ∉ toggle num drawn).
Proof.
  split.
  - intros drawn num Hle Hroom.
    destruct (decide (num ∈ drawn)) as [Hin|Hout].
    + rewrite (toggle_member _ _ Hin).
      pose proof (size_remove _ _ Hin) as Hsize.
      rewrite toggle_room; [|apply not_elem_of_remove|lia].
      by apply remove_add.
    + assert (size drawn < 6) as Hlt.
      { destruct (decide (size drawn = 6)); [|lia]. by destruct Hroom. }
      rewrite (toggle_room _ _ Hout Hlt).
      rewrite toggle_member by (apply elem_of_union_r, elem_of_singleton_2; done).
      by apply add_remove.
  - intros drawn num Hin. rewrite (toggle_member _ _ Hin).
    split; [done|apply not_elem_of_remove].
Qed.

Lemma toggle_twice_restores_witness :
  toggle 2%Z (toggle 2%Z ({[1; 2]}%Z : gset Z)) = {[1; 2]}%Z ∧
  toggle 1%Z ({[1; 2]}%Z : gset Z) = ({[1; 2]}%Z : gset Z) ∖ {[1%Z]}.
Proof.
  split.
  - apply (proj1 toggle_twice_restores).
    + vm_compute. lia.
    + intros [_ H]. vm_compute in H. discriminate H.
  - apply (proj2 toggle_twice_restores).
    apply elem_of_union_l, elem_of_singleton_2. reflexivity.
Defined.

(** * The celebration gate *)

Section gate.
Implicit Types (t : tallies) (st : page) (checks : list tallies).

Lemma updateWinnerUI_lastBest t st :
  lastBestPrizeLevel (updateWinnerUI t st) =
    if bestPrizeThisCheck t <? 4 then 0 else bestPrizeThisCheck t.
Proof. unfold updateWinnerUI. by destruct (_ <? 4). Qed.

Lemma updateWinnerUI_celebrations t st :
  celebrations (updateWinnerUI t st) =
    if bestPrizeThisCheck t <? 4 then celebrations st
    else if lastBestPrizeLevel st <? bestPrizeThisCheck t
         then celebrations st ++ [bestPrizeThisCheck t]
         else celebrations st.
Proof. unfold updateWinnerUI. by destruct (_ <? 4). Qed.

Lemma updateWinnerUI_fires t st :
  celebrations (updateWinnerUI t st) =
    if decide (4 ≤ bestPrizeThisCheck t ∧ lastBestPrizeLevel st < bestPrizeThisCheck t)
    then celebrations st ++ [bestPrizeThisCheck t]
    else celebrations st.
Proof.
  rewrite updateWinnerUI_celebrations.
  destruct (Nat.ltb_spec (bestPrizeThisCheck t) 4);
    destruct (Nat.ltb_spec (lastBestPrizeLevel st) (bestPrizeThisCheck t));
    case_decide; try done; lia.
Qed.

Lemma evaluations_snoc st checks t :
  evaluations st (checks ++ [t]) = updateWinnerUI t (evaluations st checks).
Proof. unfold evaluations. by rewrite foldl_app. Qed.

Lemma evaluations_celebrations checks : ∀ st,
  celebrations (evaluations st checks) =
    celebrations st ++ fired (lastBestPrizeLevel st) (map bestPrizeThisCheck checks).
Proof.
  induction checks as [|t checks IH]; intros st; simpl.
  - by rewrite app_nil_r.
  - rewrite IH, updateWinnerUI_lastBest, updateWinnerUI_celebrations.
    destruct (_ <? 4); [done|].
    destruct (_ <? _); [|done]. by rewrite <- app_assoc.
Qed.

Lemma evaluations_lastBest_last st checks t :
  lastBestPrizeLevel (evaluations st (checks ++ [t])) =
    if bestPrizeThisCheck t <? 4 then 0 else bestPrizeThisCheck t.
Proof. by rewrite evaluations_snoc, updateWinnerUI_lastBest. Qed.

End gate.

(** C3. Along any run of checks the celebration fires at a check exactly
    when that check's best tier is at least 4 and above the stored level;
    it never fires at a check whose best tier repeats or lowers that of the
    check before.  For the best tiers 0, 4, 4, 6, 5 it fires twice: at the
    first 4 and at the 6. *)
Theorem celebration_fires_on_strict_increase :
  (∀ (st : page) (checks : list tallies) (t : tallies),
     let before := evaluations st checks in
     celebrations (evaluations st (checks ++ [t])) =
       if decide (4 ≤ bestPrizeThisCheck t ∧
                  lastBestPrizeLevel before < bestPrizeThisCheck t)
       then celebrations before ++ [bestPrizeThisCheck t]
       else celebrations before) ∧
  (∀ (st : page) (checks : list tallies) (t' t : tallies),
     bestPrizeThisCheck t ≤ bestPrizeThisCheck t' →
     celebrations (evaluations st (checks ++ [t'; t])) =
       celebrations (evaluations st (checks ++ [t']))) ∧
  (∀ (st : page) (checks : list tallies),
     lastBestPrizeLevel st = 0 →
     map bestPrizeThisCheck checks = [0; 4; 4; 6; 5] →
     map (fun k => celebrations (evaluations st (take k checks))) [1; 2; 3; 4; 5] =
       map (fun l => celebrations st ++ l) [[]; [4]; [4]; [4; 6]; [4; 6]]).
Proof.
  split; [|split].
  - intros st checks t before. subst before.
    by rewrite evaluations_snoc, updateWinnerUI_fires.
  - intros st checks t' t Hle.
    replace (checks ++ [t'; t]) with ((checks ++ [t']) ++ [t])
      by (by rewrite <- app_assoc).
    rewrite evaluations_snoc, updateWinnerUI_celebrations.
    rewrite evaluations_lastBest_last.
    destruct (Nat.ltb_spec (bestPrizeThisCheck t) 4); [done|].
    destruct (Nat.ltb_spec (bestPrizeThisCheck t') 4); [lia|].
    destruct (Nat.ltb_spec (bestPrizeThisCheck t') (bestPrizeThisCheck t)); [lia|done].
  - intros st checks Hlast Htiers.
    assert (∀ k, celebrations (evaluations st (take k checks)) =
                 celebrations st ++ fired 0 (take k [0; 4; 4; 6; 5])) as Hk.
    { intros k. rewrite evaluations_celebrations, Hlast.
      by rewrite <- Htiers, fmap_take. }
    simpl map at 1. rewrite !Hk. reflexivity.
Qed.

Lemma celebration_fires_on_strict_increase_witness :
  map (fun k => celebrations (evaluations page_A
                  (take k (map check_with_best [0; 4; 4; 6; 5])))) [1; 2; 3; 4; 5] =
    map (fun l => celebrations page_A ++ l) [[]; [4]; [4]; [4; 6]; [4; 6]].
Proof.
  apply (proj2 (proj2 celebration_fires_on_strict_increase)); reflexivity.
Defined.

(** C4, as stated, fails: with the ticket 1-2-3-4-5-6 loaded and all six
    numbers selected the stored level is 6; unselecting 6 gives a check
    whose best tier is 5, at least 4 and not above the stored level, and
    the update stores 5. *)
Lemma stored_level_follows_lower_tier :
  (lastBestPrizeLevel page_A_sena = 6 ∧
   ∃ t, check (GAMES page_A_sena) (toggle 6%Z (drawnNumbers page_A_sena))
          (filterSwitch page_A_sena) = Normal t ∧
        bestPrizeThisCheck t = 5 ∧
        lastBestPrizeLevel (updateWinnerUI t page_A_sena) = 5 ∧
        lastBestPrizeLevel (handleGridClick (Some 6%Z) page_A_sena) = 5) ∧
  ¬ (∀ (t : tallies) (st : page),
       4 ≤ bestPrizeThisCheck t → bestPrizeThisCheck t ≤ lastBestPrizeLevel st →
       lastBestPrizeLevel (updateWinnerUI t st) = lastBestPrizeLevel st).
Proof.
  split.
  - split; [by vm_compute|].
    eexists. split; [by vm_compute|]. by vm_compute.
  - intros Hclaim.
    specialize (Hclaim (check_with_best 5) page_A_sena).
    vm_compute in Hclaim.
    assert (5 = 6) as Habs by (apply Hclaim; lia). discriminate Habs.
Qed.

(** C4, amended.  At a check whose best tier is at least 4 and not above
    the stored level no celebration fires, the banner shows the counts and
    lists of this check, and the stored level becomes the best tier of this
    check: its prior value when the tier repeats. *)
Theorem repeated_or_lower_tier_is_silent (t : tallies) (st : page) :
  4 ≤ bestPrizeThisCheck t → bestPrizeThisCheck t ≤ lastBestPrizeLevel st →
  celebrations (updateWinnerUI t st) = celebrations st ∧
  lastBestPrizeLevel (updateWinnerUI t st) = bestPrizeThisCheck t ∧
  (bestPrizeThisCheck t = lastBestPrizeLevel st →
   lastBestPrizeLevel (updateWinnerUI t st) = lastBestPrizeLevel st) ∧
  show (winnerBanner (updateWinnerUI t st)) = true ∧
  winnerCounts (winnerBanner (updateWinnerUI t st)) = shown_counts t ∧
  winnerGames (winnerBanner (updateWinnerUI t st)) = shown_games t.
Proof.
  intros Hprize Hle.
  rewrite updateWinnerUI_celebrations, updateWinnerUI_lastBest.
  unfold updateWinnerUI.
  destruct (Nat.ltb_spec (bestPrizeThisCheck t) 4); [lia|].
  destruct (Nat.ltb_spec (lastBestPrizeLevel st) (bestPrizeThisCheck t)); [lia|].
  simpl. repeat split; done.
Qed.

Lemma repeated_or_lower_tier_is_silent_witness :
  celebrations (updateWinnerUI (check_with_best 5) page_A_sena) =
    celebrations page_A_sena ∧
  lastBestPrizeLevel (updateWinnerUI (check_with_best 5) page_A_sena) = 5.
Proof.
  destruct (repeated_or_lower_tier_is_silent (check_with_best 5) page_A_sena)
    as (Hquiet & Hlevel & _).
  - vm_compute. lia.
  - vm_compute. lia.
  - split; [exact Hquiet|exact Hlevel].
Defined.

(** C10. A check without a prize stores level 0 and hides the banner, so
    a tier announced before is celebrated again when it comes back: for the
    best tiers 4, 0, 4 the celebration fires at both checks that reach 4,
    as it does on the page when the fourth matching number is selected,
    unselected and selected again. *)
Theorem no_prize_resets_stored_level :
  (∀ (t : tallies) (st : page),
     bestPrizeThisCheck t < 4 →
     lastBestPrizeLevel (updateWinnerUI t st) = 0 ∧
     show (winnerBanner (updateWinnerUI t st)) = false ∧
     celebrations (updateWinnerUI t st) = celebrations st) ∧
  (∀ (st : page) (checks : list tallies),
     lastBestPrizeLevel st = 0 →
     map bestPrizeThisCheck checks = [4; 0; 4] →
     map (fun k => celebrations (evaluations st (take k checks))) [1; 2; 3] =
       map (fun l => celebrations st ++ l) [[4]; [4]; [4; 4]]) ∧
  map (fun es => celebrations (run page_A (clicks es)))
      [[1; 2; 3; 4]; [1; 2; 3; 4; 4]; [1; 2; 3; 4; 4; 4]]%Z =
    [[4]; [4]; [4; 4]].
Proof.
  split; [|split].
  - intros t st Hlow.
    rewrite updateWinnerUI_celebrations, updateWinnerUI_lastBest.
    unfold updateWinnerUI.
    destruct (Nat.ltb_spec (bestPrizeThisCheck t) 4); [done|lia].
  - intros st checks Hlast Htiers.
    assert (∀ k, celebrations (evaluations st (take k checks)) =
                 celebrations st ++ fired 0 (take k [4; 0; 4])) as Hk.
    { intros k. rewrite evaluations_celebrations, Hlast.
      by rewrite <- Htiers, fmap_take. }
    simpl map at 1. rewrite !Hk. reflexivity.
  - by vm_compute.
Qed.

Lemma no_prize_resets_stored_level_witness :
  lastBestPrizeLevel
    (updateWinnerUI (check_with_best 3) (run page_A (clicks [1; 2; 3; 4]%Z))) = 0 ∧
  map (fun k => celebrations (evaluations page_A
                  (take k (map check_with_best [4; 0; 4])))) [1; 2; 3] =
    map (fun l => celebrations page_A ++ l) [[4]; [4]; [4; 4]].
Proof.
  split.
  - apply (proj1 no_prize_resets_stored_level). vm_compute. lia.
  - apply (proj1 (proj2 no_prize_resets_stored_level)); reflexivity.
Defined.

(** * The rows of the table *)

Section rows.
Implicit Types (drawn : gset Z) (g : game) (r a b x : scored)
  (rows l : list scored) (t : tallies).

Lemma has_drawn_member drawn num :
  has drawn num = true ↔ drawn_member drawn num.
Proof.
  unfold drawn_member. destruct num as [|z]; simpl.
  - split; [done|]. by intros (z & Hz & _).
  - rewrite bool_decide_eq_true. split.
    + intros Hin. by exists z.
    + intros (z' & Hz & Hin). by injection Hz as ->.
Qed.

Lemma filter_has_selected drawn nums :
  selected drawn nums (List.filter (has drawn) nums).
Proof.
  induction nums as [|num nums IH]; simpl; [constructor|].
  destruct (has drawn num) eqn:Hhas.
  - apply selected_hit; [by apply has_drawn_member|done].
  - apply selected_miss; [|done].
    rewrite <- has_drawn_member. by rewrite Hhas.
Qed.

(** The relation determines the picked numbers. *)
Lemma selected_unique drawn nums picked picked' :
  selected drawn nums picked → selected drawn nums picked' → picked = picked'.
Proof.
  intros H. revert picked'.
  induction H as [|num nums picked Hin _ IH|num nums picked Hout _ IH];
    intros picked' H'; inversion H'; subst; try done.
  - f_equal. by apply IH.
  - by apply IH.
Qed.

Lemma calculate_hits_selected drawn g :
  game_of (calculate_hits drawn g) = g ∧
  selected drawn (numbers g) (hits (calculate_hits drawn g)) ∧
  hitsCount (calculate_hits drawn g) = length (hits (calculate_hits drawn g)).
Proof. unfold calculate_hits; simpl. split_and!; [done| |done]. apply filter_has_selected. Qed.

(** *** The sort *)

Lemma sort_insert_perm x l : sort_insert by_most_hits x l ≡ₚ x :: l.
Proof.
  induction l as [|y l IH]; simpl; [done|].
  destruct (0 <? by_most_hits x y)%Z; [|done].
  rewrite IH. apply Permutation_swap.
Qed.

Lemma sort_perm l : sort by_most_hits l ≡ₚ l.
Proof.
  induction l as [|x l IH]; simpl; [done|].
  by rewrite sort_insert_perm, IH.
Qed.

Lemma sort_insert_sorted x l :
  StronglySorted most_hits_first l →
  StronglySorted most_hits_first (sort_insert by_most_hits x l).
Proof.
  induction 1 as [|y l Hsorted IH Hall]; simpl.
  - repeat constructor.
  - destruct (Z.ltb_spec 0 (by_most_hits x y)) as [Hlt|Hge].
    + constructor; [done|].
      rewrite sort_insert_perm. constructor; [|done].
      unfold most_hits_first, by_most_hits in *. lia.
    + constructor; [by constructor|].
      assert (most_hits_first x y) as Hxy
        by (unfold most_hits_first, by_most_hits in *; lia).
      constructor; [done|].
      eapply Forall_impl; [exact Hall|].
      intros z Hyz. unfold most_hits_first in *. lia.
Qed.

Lemma sort_sorted l : StronglySorted most_hits_first (sort by_most_hits l).
Proof.
  induction l as [|x l IH]; simpl; [constructor|].
  by apply sort_insert_sorted.
Qed.

Lemma with_hits_sort_insert k x l :
  with_hits k (sort_insert by_most_hits x l) = with_hits k (x :: l).
Proof.
  unfold with_hits.
  induction l as [|y l IH]; simpl; [done|].
  destruct (Z.ltb_spec 0 (by_most_hits x y)) as [Hlt|Hge]; [|done].
  simpl. rewrite IH. simpl.
  unfold by_most_hits in Hlt.
  destruct (Nat.eqb_spec (hitsCount x) k), (Nat.eqb_spec (hitsCount y) k);
    try done; lia.
Qed.

Lemma with_hits_sort k l : with_hits k (sort by_most_hits l) = with_hits k l.
Proof.
  induction l as [|x l IH]; [done|].
  change (sort by_most_hits (x :: l))
    with (sort_insert by_most_hits x (sort by_most_hits l)).
  rewrite with_hits_sort_insert. unfold with_hits in *. simpl. by rewrite IH.
Qed.

Lemma with_hits_positive k l :
  with_hits (S k) (List.filter (fun r => 0 <? hitsCount r) l) = with_hits (S k) l.
Proof.
  unfold with_hits. induction l as [|x l IH]; simpl; [done|].
  destruct (Nat.ltb_spec 0 (hitsCount x)); simpl; rewrite IH; [done|].
  destruct (Nat.eqb_spec (hitsCount x) (S k)); [lia|done].
Qed.

End rows.

(** C8. With the hits-only filter on, the rows are the games with at
    least one hit, each once, most hits first, and games with the same
    number of hits stand in the order in which they were loaded. *)
Theorem filtered_rows_by_hits_stable (games : list game) (drawn : gset Z) :
  let all := map (calculate_hits drawn) games in
  let rows := gamesToRender games drawn true in
  rows ≡ₚ List.filter (fun r => 0 <? hitsCount r) all ∧
  (∀ r, r ∈ rows ↔ r ∈ all ∧ 0 < hitsCount r) ∧
  StronglySorted most_hits_first rows ∧
  (∀ k, with_hits (S k) rows = with_hits (S k) all).
Proof.
  intros all rows. subst rows. unfold gamesToRender. fold all.
  split_and!.
  - apply sort_perm.
  - intros r. rewrite sort_perm.
    rewrite !list_elem_of_In, filter_In, Nat.ltb_lt. done.
  - apply sort_sorted.
  - intros k. by rewrite with_hits_sort, with_hits_positive.
Qed.

(** * The prize tally *)

Section tally.
Implicit Types (drawn : gset Z) (r a b x : scored) (rows l : list scored)
  (t : tallies).

Lemma completion_bind_assoc {A B C} (c : completion A)
    (f : A → completion B) (k : B → completion C) :
  (c ≫= f) ≫= k = c ≫= (fun v => f v ≫= k).
Proof. by destruct c. Qed.

Lemma alter_S_swap (m : gmap nat nat) i j :
  alter S i (alter S j m) = alter S j (alter S i m).
Proof.
  apply map_eq. intros k. rewrite !lookup_alter.
  repeat case_decide; subst; try done.
Qed.

(** Tallying two games with different hit counts, in either order. *)
Lemma tally_game_swap t a b :
  hitsCount a ≠ hitsCount b →
  tally_game t a ≫= (fun t' => tally_game t' b) =
  tally_game t b ≫= (fun t' => tally_game t' a).
Proof.
  intros Hne. unfold tally_game.
  destruct (4 <=? hitsCount a) eqn:Ha, (4 <=? hitsCount b) eqn:Hb; simpl;
    rewrite ?Ha, ?Hb; try done.
  - destruct (winningGameIds t !! hitsCount a) as [ids_a|] eqn:Hla,
             (winningGameIds t !! hitsCount b) as [ids_b|] eqn:Hlb; simpl;
      rewrite ?Ha, ?Hb, ?lookup_insert_ne, ?Hla, ?Hlb by done; try done.
    f_equal. f_equal.
    + apply alter_S_swap.
    + by apply insert_insert_ne.
    + destruct (Nat.ltb_spec (bestPrizeThisCheck t) (hitsCount a)),
               (Nat.ltb_spec (bestPrizeThisCheck t) (hitsCount b));
        repeat match goal with
               | |- context [?n <? ?m] => destruct (Nat.ltb_spec n m)
               end; lia.
  - destruct (winningGameIds t !! hitsCount a); simpl; by rewrite ?Hb.
  - destruct (winningGameIds t !! hitsCount b); simpl; by rewrite ?Ha.
Qed.

Lemma forEach_tally_sort_insert x l : ∀ t,
  forEach_tally (sort_insert by_most_hits x l) t = forEach_tally (x :: l) t.
Proof.
  induction l as [|y l IH]; intros t; [done|]. simpl sort_insert.
  destruct (Z.ltb_spec 0 (by_most_hits x y)) as [Hlt|Hge]; [|done].
  assert (hitsCount x ≠ hitsCount y) as Hne
    by (unfold by_most_hits in Hlt; lia).
  change (forEach_tally (y :: sort_insert by_most_hits x l) t)
    with (tally_game t y ≫= (fun t' => forEach_tally (sort_insert by_most_hits x l) t')).
  transitivity (tally_game t y ≫= (fun t' => tally_game t' x ≫= forEach_tally l)).
  { destruct (tally_game t y); [|done]. simpl. apply IH. }
  rewrite <- completion_bind_assoc.
  rewrite <- (tally_game_swap t x y Hne).
  rewrite completion_bind_assoc. done.
Qed.

Lemma forEach_tally_sort l : ∀ t,
  forEach_tally (sort by_most_hits l) t = forEach_tally l t.
Proof.
  induction l as [|x l IH]; intros t; [done|].
  change (sort by_most_hits (x :: l))
    with (sort_insert by_most_hits x (sort by_most_hits l)).
  rewrite forEach_tally_sort_insert. simpl.
  destruct (tally_game t x); [|done]. apply IH.
Qed.

Lemma forEach_tally_positive l : ∀ t,
  forEach_tally (List.filter (fun r => 0 <? hitsCount r) l) t = forEach_tally l t.
Proof.
  induction l as [|x l IH]; intros t; [done|].
  cbn [List.filter forEach_tally].
  destruct (Nat.ltb_spec 0 (hitsCount x)) as [Hpos|Hzero].
  - cbn [forEach_tally]. destruct (tally_game t x); [|done]. apply IH.
  - assert (tally_game t x = Normal t) as ->.
    { unfold tally_game. destruct (Nat.leb_spec 4 (hitsCount x)); [lia|done]. }
    apply IH.
Qed.

(** The tally does not see the filter switch. *)
Lemma check_filter_irrelevant games drawn :
  check games drawn true = check games drawn false.
Proof.
  unfold check, gamesToRender.
  by rewrite forEach_tally_sort, forEach_tally_positive.
Qed.

(** [check] is the tally step of [renderGamesTable]. *)
Lemma renderGamesTable_check (st : page) :
  renderGamesTable st =
    check (GAMES st) (drawnNumbers st) (filterSwitch st) ≫= fun t =>
    Normal (updateWinnerUI t
      (set_gamesTableBody
         (Rows (gamesToRender (GAMES st) (drawnNumbers st) (filterSwitch st))) st)).
Proof. reflexivity. Qed.

Lemma announcement_updateWinnerUI t (st st' : page) :
  winnerBanner st = winnerBanner st' →
  lastBestPrizeLevel st = lastBestPrizeLevel st' →
  celebrations st = celebrations st' →
  announcement (updateWinnerUI t st) = announcement (updateWinnerUI t st').
Proof.
  intros Hbanner Hlast Hlog. unfold announcement, updateWinnerUI.
  destruct (bestPrizeThisCheck t <? 4); simpl; by rewrite ?Hbanner, ?Hlast, ?Hlog.
Qed.

(** What a completed tally has added for a tier [k]. *)
Lemma forEach_tally_tier rows : ∀ t t' k,
  forEach_tally rows t = Normal t' → 4 ≤ k →
  winningGameIds t' !! k =
    (fun ids => ids ++ map (fun r => id (game_of r)) (with_hits k rows))
      <$> winningGameIds t !! k ∧
  prizeCounts t' !! k =
    (fun c => c + length (with_hits k rows)) <$> prizeCounts t !! k.
Proof.
  induction rows as [|g rows IH]; intros t t' k Hrun Hk.
  - injection Hrun as <-. simpl.
    destruct (winningGameIds t !! k), (prizeCounts t !! k); simpl;
      by rewrite ?app_nil_r, ?Nat.add_0_r.
  - simpl in Hrun.
    destruct (tally_game t g) as [t1|] eqn:Hg; [|done]. simpl in Hrun.
    destruct (IH _ _ k Hrun Hk) as [-> ->]. clear IH Hrun.
    unfold tally_game in Hg. unfold with_hits. simpl.
    destruct (Nat.leb_spec 4 (hitsCount g)) as [Hprize|Hnone].
    + destruct (winningGameIds t !! hitsCount g) as [ids|] eqn:Hids; [|done].
      injection Hg as <-. simpl.
      destruct (Nat.eqb_spec (hitsCount g) k) as [Heq|Hne].
      * rewrite Heq in *.
        rewrite lookup_insert_eq, lookup_alter_eq, Hids. simpl.
        split; [by rewrite <- app_assoc|].
        destruct (prizeCounts t !! k); simpl; [f_equal; lia|done].
      * by rewrite lookup_insert_ne, lookup_alter_ne.
    + injection Hg as <-.
      destruct (Nat.eqb_spec (hitsCount g) k); [lia|done].
Qed.

End tally.

(** C9, as stated, fails: no game list and selection give different
    per-tier lists of winning ids with the filter on and off. *)
Lemma winner_lists_never_differ :
  ¬ ∃ (games : list game) (drawn : gset Z) (t_on t_off : tallies),
      check games drawn true = Normal t_on ∧
      check games drawn false = Normal t_off ∧
      winningGameIds t_on ≠ winningGameIds t_off.
Proof.
  intros (games & drawn & t_on & t_off & Hon & Hoff & Hdiff).
  rewrite check_filter_irrelevant, Hoff in Hon.
  injection Hon as <-. by apply Hdiff.
Qed.

(** C9, amended.  The tally is the same with the filter on and off: for
    each tier the winning ids are listed in load order in both modes, and
    the counts and the best tier agree; what the filter changes is the
    order of the table rows, which goes from load order to most hits
    first. *)
Theorem winner_lists_independent_of_filter :
  (∀ (games : list game) (drawn : gset Z),
     check games drawn true = check games drawn false) ∧
  (∀ (games : list game) (drawn : gset Z) (checked : bool) (t : tallies) (k : nat),
     check games drawn checked = Normal t → 4 ≤ k ≤ 6 →
     winningGameIds t !! k =
       Some (map (fun r => id (game_of r))
               (with_hits k (map (calculate_hits drawn) games)))) ∧
  (∀ st : page,
     announcement <$> renderGamesTable (set_filterSwitch true st) =
     announcement <$> renderGamesTable (set_filterSwitch false st)) ∧
  (∃ games,
     process tickets_BA = Normal games ∧
     map (fun r => id (game_of r)) (gamesToRender games draw_1_to_6 false) = ["B"; "A"] ∧
     map (fun r => id (game_of r)) (gamesToRender games draw_1_to_6 true) = ["A"; "B"]).
Proof.
  split_and!.
  - apply check_filter_irrelevant.
  - intros games drawn checked t k Hcheck Hk.
    assert (check games drawn false = Normal t) as Hoff.
    { destruct checked; [by rewrite <- check_filter_irrelevant|done]. }
    unfold check, gamesToRender in Hoff.
    destruct (forEach_tally_tier _ _ _ k Hoff) as [-> _]; [lia|].
    assert (k = 4 ∨ k = 5 ∨ k = 6) as [->|[->| ->]] by lia; done.
  - intros st. rewrite !renderGamesTable_check.
    cbn [GAMES drawnNumbers filterSwitch set_filterSwitch].
    rewrite check_filter_irrelevant.
    destruct (check (GAMES st) (drawnNumbers st) false) as [t|e]; [|done].
    cbn [mbind completion_bind fmap completion_fmap]. f_equal.
    by apply announcement_updateWinnerUI.
  - eexists. split; [by vm_compute|]. split; by vm_compute.
Qed.

Lemma winner_lists_independent_of_filter_witness :
  ∃ t, check (GAMES page_A_sena) draw_1_to_6 true = Normal t ∧
       winningGameIds t !! 6 = Some ["A"].
Proof.
  destruct (check (GAMES page_A_sena) draw_1_to_6 true) as [t|e] eqn:Hcheck;
    [|by vm_compute in Hcheck].
  exists t. split; [done|].
  rewrite (proj1 (proj2 winner_lists_independent_of_filter) _ _ _ _ 6 Hcheck); [|lia].
  by vm_compute.
Defined.

(** C1. Every game gets, as its hits, the numbers of the game that are in
    the selection, in the game's own order, and as its hit count how many
    they are: so in the unfiltered table, row by row, and so for every row
    of the filtered table.  For the tickets A = 1-2-3-4-5-6 and
    B = 1-2-3-4-60-59 and the draw 1 to 6, A has 6 hits and B has 4, the
    counts are one Quadra, no Quina, one Sena, and the best tier is 6. *)
Theorem hits_are_the_drawn_numbers :
  (∀ (games : list game) (drawn : gset Z) (i : nat) (g : game),
     games !! i = Some g →
     ∃ r, gamesToRender games drawn false !! i = Some r ∧
          game_of r = g ∧
          selected drawn (numbers g) (hits r) ∧
          hitsCount r = length (hits r)) ∧
  (∀ (games : list game) (drawn : gset Z) (r : scored),
     r ∈ gamesToRender games drawn true →
     game_of r ∈ games ∧
     selected drawn (numbers (game_of r)) (hits r) ∧
     hitsCount r = length (hits r)) ∧
  (∃ (games : list game) (t : tallies),
     process tickets_AB = Normal games ∧
     map (fun r => (id (game_of r), hitsCount r))
       (gamesToRender games draw_1_to_6 false) = [("A", 6); ("B", 4)] ∧
     check games draw_1_to_6 false = Normal t ∧
     prizeCounts t = {[4 := 1; 5 := 0; 6 := 1]} ∧
     bestPrizeThisCheck t = 6).
Proof.
  split_and!.
  - intros games drawn i g Hi.
    exists (calculate_hits drawn g). unfold gamesToRender.
    rewrite list_lookup_fmap, Hi. split; [done|].
    apply calculate_hits_selected.
  - intros games drawn r Hr. unfold gamesToRender in Hr.
    rewrite sort_perm in Hr.
    apply list_elem_of_In, filter_In in Hr as [Hr _].
    apply list_elem_of_In, list_elem_of_fmap in Hr as (g & -> & Hg).
    destruct (calculate_hits_selected drawn g) as (-> & Hsel & Hcount).
    done.
  - eexists _, _. split; [by vm_compute|]. split; [by vm_compute|].
    split; [by vm_compute|]. split; by vm_compute.
Qed.

Lemma hits_are_the_drawn_numbers_witness :
  ∃ r, gamesToRender (GAMES page_A) draw_1_to_6 false !! 0 = Some r ∧
       hitsCount r = length (hits r).
Proof.
  destruct (proj1 hits_are_the_drawn_numbers (GAMES page_A) draw_1_to_6 0
              {| id := "A"; sanitizedId := "A";
                 numbers := map Int [1; 2; 3; 4; 5; 6]%Z; source := "A" |})
    as (r & Hr & _ & _ & Hcount).
  - by vm_compute.
  - by exists r.
Defined.

(** * The loader *)

Section loader.
Implicit Types (v bets betNumbers : json) (nums elements : list json)
  (props : list (string * json)) (acc : list game).

Lemma json_nested_ind (P : json → Prop) :
  P JNull → (∀ b, P (JBool b)) → (∀ z, P (JNum z)) → (∀ s, P (JStr s)) →
  (∀ l, Forall P l → P (JArr l)) → (∀ l, P (JObj l)) →
  ∀ v, P v.
Proof.
  intros Hnull Hbool Hnum Hstr Harr Hobj.
  fix IH 1. intros [| b | z | s | l | l].
  - exact Hnull.
  - apply Hbool.
  - apply Hnum.
  - apply Hstr.
  - apply Harr. induction l as [|x l IHl]; constructor; [apply IH|apply IHl].
  - apply Hobj.
Qed.

(** String conversion fails exactly on values that are not printable,
    and then with a [TypeError]. *)
Lemma ToString_printable v :
  match ToString v with
  | Normal _ => printable v = true
  | Throw e => printable v = false ∧ e = TypeError
  end.
Proof.
  induction v as [| [|] | z | s | l IH | l] using json_nested_ind;
    simpl; try done.
  - induction IH as [|x l Hx _ IHl]; [done|].
    assert (match (match x with JNull => Normal ""%string | _ => ToString x end) with
            | Normal _ => printable x = true
            | Throw e => printable x = false ∧ e = TypeError
            end) as Hel by (by destruct x).
    change (forallb printable (x :: l)) with (printable x && forallb printable l).
    destruct l as [|y l].
    + destruct (match x with JNull => _ | _ => _ end) as [sx|ex].
      * by rewrite Hel.
      * by destruct Hel as [-> ->].
    + destruct (match x with JNull => _ | _ => _ end) as [sx|ex].
      * rewrite Hel. simpl in IHl |- *.
        match type of IHl with
        | match ?c with _ => _ end => destruct c
        end; done.
      * by destruct Hel as [-> ->].
  - by destruct (has_own _ l).
Qed.

Lemma parseInt_printable v :
  parseInt v = if printable v then Normal (number_of v) else Throw TypeError.
Proof.
  unfold number_of, parseInt. pose proof (ToString_printable v) as H.
  destruct (ToString v) as [s|e]; simpl.
  - by rewrite H.
  - by destruct H as [-> ->].
Qed.

Lemma mapM_parseInt nums :
  mapM parseInt nums =
    if forallb printable nums then Normal (map number_of nums) else Throw TypeError.
Proof.
  induction nums as [|v nums IH]; [done|]. simpl.
  rewrite parseInt_printable, IH.
  by destruct (printable v), (forallb printable nums).
Qed.

Lemma map_parseInt_processable betNumbers :
  map_parseInt betNumbers =
    if processable_bet betNumbers then Normal (bet_numbers betNumbers)
    else Throw TypeError.
Proof. destruct betNumbers; try done. apply mapM_parseInt. Qed.

Lemma forEach_bets_processable id0 elements : ∀ index acc,
  forEach_bets id0 elements index acc =
    if forallb processable_bet elements then
      Normal (acc ++ imap (fun i betNumbers =>
                {| id := id0 +:+ "-" +:+ string_of_nat (index + i + 1);
                   sanitizedId := sanitizeForHtml id0 +:+ "-"
                                  +:+ string_of_nat (index + i + 1);
                   numbers := bet_numbers betNumbers;
                   source := id0 |}) elements)
    else Throw TypeError.
Proof.
  induction elements as [|b elements IH]; intros index acc.
  - simpl. by rewrite app_nil_r.
  - cbn [forEach_bets forallb]. rewrite map_parseInt_processable.
    destruct (processable_bet b); [|done].
    cbn [mbind completion_bind andb]. rewrite IH.
    destruct (forallb processable_bet elements); [|done].
    f_equal. rewrite <- app_assoc. f_equal. cbn [imap app].
    rewrite Nat.add_0_r. f_equal.
    apply imap_ext. intros i x _. unfold compose.
    by replace (index + S i) with (S index + i) by lia.
Qed.

(** One turn of the loop on an entry the loader gets through. *)
Lemma load_loop_cons_processable id0 bets props acc :
  (id0 = "_comment"%string ∨ processable bets = true) →
  load_loop ((id0, bets) :: props) acc =
    load_loop props (acc ++ expected_games (id0, bets)).
Proof.
  intros Hok. cbn [load_loop expected_games].
  destruct (String.eqb_spec id0 "_comment") as [->|Hne];
    [by rewrite app_nil_r|].
  destruct Hok as [?|Hok]; [done|].
  destruct bets as [| | | |elements|]; try (by rewrite app_nil_r).
  unfold processable in Hok.
  destruct (first_isArray elements).
  - rewrite forEach_bets_processable, Hok. done.
  - rewrite mapM_parseInt, Hok. done.
Qed.

(** One turn of the loop on an entry the loader cannot process. *)
Lemma load_loop_cons_unprocessable id0 bets props acc :
  id0 ≠ "_comment"%string → processable bets = false →
  load_loop ((id0, bets) :: props) acc = Throw TypeError.
Proof.
  intros Hne Hbad. cbn [load_loop].
  destruct (String.eqb_spec id0 "_comment"); [done|].
  destruct bets as [| | | |elements|]; try done.
  unfold processable in Hbad.
  destruct (first_isArray elements).
  - rewrite forEach_bets_processable, Hbad. done.
  - rewrite mapM_parseInt, Hbad. done.
Qed.

Lemma load_loop_processable props : ∀ acc,
  (∀ id0 bets, (id0, bets) ∈ props →
     id0 ≠ "_comment"%string → processable bets = true) →
  load_loop props acc = Normal (acc ++ props ≫= expected_games).
Proof.
  induction props as [|[id0 bets] props IH]; intros acc Hok.
  - simpl. by rewrite app_nil_r.
  - rewrite load_loop_cons_processable.
    + rewrite IH.
      * by rewrite <- app_assoc.
      * intros id1 bets1 Hin Hne. apply (Hok id1 bets1); [by right|done].
    + destruct (decide (id0 = "_comment"%string)); [by left|right].
      apply (Hok id0 bets); [by left|done].
Qed.

Lemma load_loop_throws props : ∀ acc,
  throws (load_loop props acc) ↔
  ∃ id0 bets, (id0, bets) ∈ props ∧
    id0 ≠ "_comment"%string ∧ processable bets = false.
Proof.
  induction props as [|[id0 bets] props IH]; intros acc.
  - split; [by intros [e He]|]. intros (? & ? & Hin & _). by inversion Hin.
  - destruct (decide (id0 = "_comment"%string ∨ processable bets = true))
      as [Hok|Hbad].
    + rewrite load_loop_cons_processable by done. rewrite IH.
      split; intros (id1 & bets1 & Hin & Hne & Hproc).
      * exists id1, bets1. split_and!; [by right|done|done].
      * exists id1, bets1. split_and!; [|done|done].
        apply elem_of_cons in Hin as [Heq|Hin]; [|done].
        injection Heq as -> ->. destruct Hok as [?|Hok]; [done|congruence].
    + assert (id0 ≠ "_comment"%string ∧ processable bets = false) as [Hne Hproc].
      { split; [intros ?; apply Hbad; by left|].
        destruct (processable bets); [|done]. exfalso. apply Hbad. by right. }
      rewrite load_loop_cons_unprocessable by done.
      split; [|by exists TypeError].
      intros _. exists id0, bets. split_and!; [by left|done|done].
Qed.

Lemma load_loop_comment props' v props acc :
  load_loop (props' ++ ("_comment"%string, v) :: props) acc =
  load_loop (props' ++ props) acc.
Proof.
  revert acc. induction props' as [|[id0 bets] props' IH]; intros acc; [done|].
  cbn [app load_loop].
  destruct (String.eqb id0 "_comment"); [apply IH|].
  destruct bets as [| | | |elements|]; try apply IH.
  destruct (first_isArray elements).
  - destruct (forEach_bets id0 elements 0 acc); [apply IH|done].
  - destruct (mapM parseInt elements); [apply IH|done].
Qed.

Lemma load_loop_not_array props' id0 bets props acc :
  isArray bets = false →
  load_loop (props' ++ (id0, bets) :: props) acc =
  load_loop (props' ++ props) acc.
Proof.
  intros Hshape.
  revert acc. induction props' as [|[id1 bets1] props' IH]; intros acc.
  - cbn [app load_loop]. destruct bets; try done; by destruct (String.eqb _ _).
  - cbn [app load_loop].
    destruct (String.eqb id1 "_comment"); [apply IH|].
    destruct bets1 as [| | | |elements|]; try apply IH.
    destruct (first_isArray elements).
    + destruct (forEach_bets id1 elements 0 acc); [apply IH|done].
    + destruct (mapM parseInt elements); [apply IH|done].
Qed.

End loader.

Lemma loads_cleanly_spec (gamesData : json) :
  loads_cleanly gamesData = true ↔
  ∀ id0 bets, (id0, bets) ∈ properties gamesData →
    id0 ≠ "_comment"%string → processable bets = true.
Proof.
  unfold loads_cleanly. rewrite forallb_forall. split.
  - intros Hall id0 bets Hin Hne.
    apply list_elem_of_In, Hall in Hin. simpl in Hin.
    apply orb_true_iff in Hin as [Heq|Hok]; [|done].
    by apply String.eqb_eq in Heq.
  - intros Hall [id0 bets] Hin. simpl.
    destruct (String.eqb_spec id0 "_comment"); [done|].
    apply (Hall id0 bets); [by apply list_elem_of_In|done].
Qed.

Lemma process_loads_cleanly (gamesData : json) :
  loads_cleanly gamesData = true →
  process gamesData = Normal (properties gamesData ≫= expected_games).
Proof.
  intros Hok. unfold process.
  rewrite load_loop_processable; [done|]. by apply loads_cleanly_spec.
Qed.

(** C2. The loader passes over [_comment]; a ticket whose value is a
    sequence beginning with a sequence gives one game per inner sequence,
    in order, named by the ticket id, a dash and the 1-based index; a
    ticket whose value is a flat sequence gives one game named by the
    ticket id; and for a file whose entries the loop gets through (every
    element of a multi-bet a sequence, every value printable) the games
    loaded are those of its entries, in order. *)
Theorem loader_normalizes_tickets :
  (∀ gamesData : json,
     loads_cleanly gamesData = true →
     process gamesData = Normal (properties gamesData ≫= expected_games)) ∧
  (∀ (props' : list (string * json)) (v : json) (props : list (string * json))
     (acc : list game),
     load_loop (props' ++ ("_comment"%string, v) :: props) acc =
     load_loop (props' ++ props) acc) ∧
  (∀ (id0 : string) (elements : list json),
     id0 ≠ "_comment"%string → first_isArray elements = true →
     length (expected_games (id0, JArr elements)) = length elements ∧
     ∀ (i : nat) (betNumbers : json),
       elements !! i = Some betNumbers →
       ∃ g, expected_games (id0, JArr elements) !! i = Some g ∧
            id g = id0 +:+ "-" +:+ string_of_nat (i + 1) ∧
            source g = id0 ∧
            numbers g = bet_numbers betNumbers) ∧
  (∀ (id0 : string) (elements : list json),
     id0 ≠ "_comment"%string → first_isArray elements = false →
     ∃ g, expected_games (id0, JArr elements) = [g] ∧
          id g = id0 ∧ source g = id0 ∧ numbers g = map number_of elements) ∧
  (∃ games, process ticket_multi = Normal games ∧
            map id games = ["T-1"; "T-2"]%string ∧
            map numbers games =
              [map Int [1; 2; 3; 4; 5; 6]; map Int [7; 8; 9; 10; 11; 12]]%Z) ∧
  (∃ games, process ticket_single = Normal games ∧ map id games = ["T"%string]).
Proof.
  split_and!.
  - apply process_loads_cleanly.
  - apply load_loop_comment.
  - intros id0 elements Hne Hmulti. cbn [expected_games].
    destruct (String.eqb_spec id0 "_comment"); [done|]. rewrite Hmulti.
    split; [apply length_imap|].
    intros i betNumbers Hi. eexists. rewrite list_lookup_imap, Hi. done.
  - intros id0 elements Hne Hflat. cbn [expected_games].
    destruct (String.eqb_spec id0 "_comment"); [done|]. rewrite Hflat.
    by eexists.
  - eexists. split; [by vm_compute|]. split; by vm_compute.
  - eexists. split; by vm_compute.
Qed.

Lemma loader_normalizes_tickets_witness :
  process ticket_multi = Normal (properties ticket_multi ≫= expected_games).
Proof.
  apply (proj1 loader_normalizes_tickets). reflexivity.
Defined.

(** C5, as stated, fails: the file with the entries T = [1, 2, "x"],
    U = 5 and V = [] has three malformed entries and loads without error,
    T as a game of three numbers the last of which is NaN, U skipped, V as
    a game without numbers. *)
Lemma malformed_entries_load_without_error :
  (Forall (fun entry => malformed (snd entry) = true) (properties tickets_malformed) ∧
   process tickets_malformed =
     Normal [{| id := "T"; sanitizedId := "T";
                numbers := [Int 1; Int 2; NaN]; source := "T" |};
             {| id := "V"; sanitizedId := "V"; numbers := []; source := "V" |}]) ∧
  ¬ (∀ (gamesData : json) (id0 : string) (bets : json),
       (id0, bets) ∈ properties gamesData → id0 ≠ "_comment"%string →
       malformed bets = true → throws (process gamesData)).
Proof.
  split.
  - split; [by repeat constructor|by vm_compute].
  - intros Hclaim.
    destruct (Hclaim tickets_malformed "U"%string (JNum 5)) as [e He].
    + right. left.
    + done.
    + done.
    + vm_compute in He. discriminate He.
Qed.

(** * Numbers written and read back *)

Lemma append_cons (c : ascii) (s rest : string) :
  String c s +:+ rest = String c (s +:+ rest).
Proof. reflexivity. Qed.

Lemma read_digits_uint (d : Decimal.uint) : ∀ (rest : string) (n : nat),
  read_digits (NilEmpty.string_of_uint d +:+ rest) (Some (Z.of_nat n)) =
    read_digits rest (Some (Z.of_nat (Nat.of_uint_acc d n))).
Proof.
  induction d as [|d IH|d IH|d IH|d IH|d IH|d IH|d IH|d IH|d IH|d IH];
    intros rest n; [reflexivity|..];
    cbn [NilEmpty.string_of_uint]; rewrite append_cons; cbn [read_digits];
    match goal with
    | |- context [digit_of ?c] =>
        let v := eval vm_compute in (digit_of c) in change (digit_of c) with v
    end;
    cbn [default Nat.of_uint_acc]; rewrite <- IH; do 2 f_equal;
    rewrite Nat.tail_mul_spec; unfold Datatypes.id; lia.
Qed.

Lemma of_uint_acc_positive (d : Decimal.uint) : ∀ acc : positive,
  Z.of_nat (Nat.of_uint_acc d (Pos.to_nat acc)) = Z.pos (Pos.of_uint_acc d acc).
Proof.
  induction d as [|d IH|d IH|d IH|d IH|d IH|d IH|d IH|d IH|d IH|d IH];
    intros acc; cbn [Nat.of_uint_acc Pos.of_uint_acc]; [lia|..];
    rewrite <- IH; do 2 f_equal; rewrite Nat.tail_mul_spec; lia.
Qed.

Lemma of_uint_nat_N (d : Decimal.uint) :
  Z.of_nat (Nat.of_uint d) = Z.of_N (Pos.of_uint d).
Proof.
  unfold Nat.of_uint.
  induction d as [|d IH|d IH|d IH|d IH|d IH|d IH|d IH|d IH|d IH|d IH];
    cbn [Nat.of_uint_acc Pos.of_uint]; [done|exact IH|..];
    cbn [Z.of_N]; rewrite <- of_uint_acc_positive; do 2 f_equal;
    rewrite Nat.tail_mul_spec; lia.
Qed.

Lemma read_digits_stop (rest : string) (acc : option Z) :
  no_digit_ahead rest → read_digits rest acc = acc.
Proof. destruct rest as [|c rest]; [done|]. simpl. by intros ->. Qed.

Lemma skip_white_space_app (w s : string) :
  all_white_space w → skip_white_space (w +:+ s) = skip_white_space s.
Proof.
  unfold all_white_space. induction w as [|c w IH]; [done|].
  cbn [list_ascii_of_string]. intros Hall.
  apply Forall_cons in Hall as [Hc Hall].
  rewrite append_cons. cbn [skip_white_space]. rewrite Hc. by apply IH.
Qed.

Lemma parseInt_string_head (c : ascii) (s : string) :
  is_white_space c = false → c ≠ "-"%char → c ≠ "+"%char →
  parseInt_string (String c s) =
    match read_digits (String c s) None with
    | Some m => Int (1 * m)
    | None => NaN
    end.
Proof.
  intros Hwhite Hminus Hplus. unfold parseInt_string.
  cbn [skip_white_space]. rewrite Hwhite.
  destruct c as [[|] [|] [|] [|] [|] [|] [|] [|]]; try reflexivity;
    by (destruct Hminus || destruct Hplus).
Qed.

Lemma parseInt_string_minus (s : string) :
  parseInt_string (String "-" s) =
    match read_digits s None with
    | Some m => Int (-1 * m)
    | None => NaN
    end.
Proof. reflexivity. Qed.

Lemma string_of_uint_head (d : Decimal.uint) :
  d ≠ Decimal.Nil →
  ∃ c s, NilEmpty.string_of_uint d = String c s ∧
         is_white_space c = false ∧ c ≠ "-"%char ∧ c ≠ "+"%char ∧
         read_digits (String c s) None = read_digits (String c s) (Some 0%Z) ∧
         ∀ rest, read_digits (String c (s +:+ rest)) None =
                 read_digits (String c (s +:+ rest)) (Some 0%Z).
Proof.
  intros Hd. destruct d; [done|..]; eexists _, _;
    (split; [reflexivity|]); split_and!; done.
Qed.

(** [parseInt] on the digits of a decimal numeral, followed by text that
    does not start with a digit. *)
Lemma parseInt_string_uint (d : Decimal.uint) (rest : string) :
  d ≠ Decimal.Nil → no_digit_ahead rest →
  parseInt_string (NilEmpty.string_of_uint d +:+ rest) =
    Int (Z.of_nat (Nat.of_uint d)) ∧
  parseInt_string (String "-" (NilEmpty.string_of_uint d +:+ rest)) =
    Int (- Z.of_nat (Nat.of_uint d)).
Proof.
  intros Hd Hrest.
  destruct (string_of_uint_head d Hd) as (c & s & Hstr & Hwhite & Hminus & Hplus & _ & Hzero).
  assert (read_digits (NilEmpty.string_of_uint d +:+ rest) None =
          Some (Z.of_nat (Nat.of_uint d))) as Hread.
  { transitivity (read_digits (NilEmpty.string_of_uint d +:+ rest) (Some (Z.of_nat 0))).
    - rewrite Hstr, append_cons. apply Hzero.
    - rewrite read_digits_uint. by apply read_digits_stop. }
  split.
  - rewrite Hstr, append_cons in Hread |- *.
    rewrite parseInt_string_head, Hread by done. f_equal; lia.
  - rewrite parseInt_string_minus, Hread. f_equal; lia.
Qed.

Lemma string_of_Z_digits (z : Z) :
  ∃ d, d ≠ Decimal.Nil ∧ Z.of_nat (Nat.of_uint d) = Z.abs z ∧
       string_of_Z z =
         if (z <? 0)%Z then String "-" (NilEmpty.string_of_uint d)
         else NilEmpty.string_of_uint d.
Proof.
  destruct z as [|p|p].
  - by exists (Decimal.D0 Decimal.Nil).
  - exists (Pos.to_uint p). split_and!.
    + apply Unsigned.to_uint_nonnil.
    + by rewrite of_uint_nat_N, Unsigned.of_to.
    + unfold string_of_Z. cbn [Z.to_int NilZero.string_of_int Z.ltb Z.compare].
      pose proof (Unsigned.to_uint_nonnil p). by destruct (Pos.to_uint p).
  - exists (Pos.to_uint p). split_and!.
    + apply Unsigned.to_uint_nonnil.
    + by rewrite of_uint_nat_N, Unsigned.of_to.
    + unfold string_of_Z. cbn [Z.to_int NilZero.string_of_int Z.ltb Z.compare].
      pose proof (Unsigned.to_uint_nonnil p). by destruct (Pos.to_uint p).
Qed.

Lemma parseInt_string_of_Z (z : Z) (rest : string) :
  no_digit_ahead rest → parseInt_string (string_of_Z z +:+ rest) = Int z.
Proof.
  intros Hrest.
  destruct (string_of_Z_digits z) as (d & Hd & Habs & ->).
  destruct (parseInt_string_uint d rest Hd Hrest) as [Hplus Hminus].
  destruct (Z.ltb_spec z 0).
  - rewrite append_cons, Hminus. f_equal. lia.
  - rewrite Hplus. f_equal. lia.
Qed.

Lemma append_empty_r (s : string) : s +:+ "" = s.
Proof. induction s as [|c s IH]; [done|]. by rewrite append_cons, IH. Qed.

Lemma number_of_JNum (z : Z) : number_of (JNum z) = Int z.
Proof.
  unfold number_of, parseInt. cbn [ToString mbind completion_bind].
  rewrite <- (append_empty_r (string_of_Z z)). by apply parseInt_string_of_Z.
Qed.

(** ** Values that [parseInt] turns into NaN *)

Lemma read_digits_Some (s : string) : ∀ a : Z, is_Some (read_digits s (Some a)).
Proof.
  induction s as [|c s IH]; intros a; cbn [read_digits]; [by eexists|].
  destruct (digit_of c); [apply IH|by eexists].
Qed.

Lemma read_digits_None (s : string) :
  read_digits s None = None ↔
  match s with
  | String c _ => digit_of c = None
  | EmptyString => True
  end.
Proof.
  destruct s as [|c s]; [done|]. cbn [read_digits].
  destruct (digit_of c) as [d|]; [|done]. split; [|done].
  intros Hnone. destruct (read_digits_Some s (10 * default 0 None + d)%Z) as [m Hm].
  congruence.
Qed.

Lemma parseInt_string_unsigned (s : string) :
  parseInt_string s = NaN ↔ read_digits (unsigned_part s) None = None.
Proof.
  unfold parseInt_string, unsigned_part. cbv zeta.
  destruct (skip_white_space s) as [|c r].
  - done.
  - destruct c as [[|] [|] [|] [|] [|] [|] [|] [|]]; cbv beta iota;
      (destruct (read_digits _ None); split; [discriminate|discriminate|done|done]).
Qed.

Lemma parseInt_string_NaN (s : string) :
  parseInt_string s = NaN ↔ starts_with_integer s = false.
Proof.
  rewrite parseInt_string_unsigned, read_digits_None. unfold starts_with_integer.
  destruct (unsigned_part s) as [|c r]; [done|].
  destruct (digit_of c) as [d|].
  - rewrite bool_decide_eq_true_2 by (by eexists). split; discriminate.
  - rewrite bool_decide_eq_false_2 by (by intros [d Hd]). done.
Qed.

Lemma number_of_ToString (v : json) (s : string) :
  ToString v = Normal s → number_of v = parseInt_string s.
Proof. intros Hs. unfold number_of, parseInt. by rewrite Hs. Qed.

Lemma parseInt_string_leading (w : string) (z : Z) (rest : string) :
  all_white_space w → no_digit_ahead rest →
  parseInt_string (w +:+ string_of_Z z +:+ rest) = Int z.
Proof.
  intros Hw Hrest. unfold parseInt_string at 1.
  rewrite skip_white_space_app by done.
  by apply parseInt_string_of_Z.
Qed.

(** C5, amended.  The loader reports an error exactly when some entry
    other than [_comment] cannot be processed: a sequence beginning with a
    sequence that has an element which is no sequence, or a bet holding a
    value whose conversion to a string throws.  Other malformed entries
    load without error: a value that is no sequence is skipped, and a flat
    sequence of printable values of any length becomes a game with as many
    numbers, each value coerced by [parseInt].  A string becomes NaN
    exactly when, after leading white space and one optional sign, it does
    not start with a decimal digit; [null], a boolean and a plain object
    become NaN; a value whose text begins, after white space, with the
    decimal digits of a safe integer becomes that integer, whatever
    follows the digits. *)
Theorem loader_reports_only_unprocessable_entries :
  (∀ gamesData : json,
     throws (process gamesData) ↔
     ∃ id0 bets, (id0, bets) ∈ properties gamesData ∧
       id0 ≠ "_comment"%string ∧ processable bets = false) ∧
  (∀ (status : Z) (gamesData : json) (st : page),
     throws (process gamesData) →
     fetchGames (Response true status (Some gamesData)) st =
       set_gamesTableBody ErrorLoadingGames st) ∧
  (∀ (props' : list (string * json)) (id0 : string) (bets : json)
     (props : list (string * json)) (acc : list game),
     isArray bets = false →
     load_loop (props' ++ (id0, bets) :: props) acc = load_loop (props' ++ props) acc) ∧
  (∀ (id0 : string) (elements : list json),
     id0 ≠ "_comment"%string → first_isArray elements = false →
     forallb printable elements = true →
     process (JObj [(id0, JArr elements)]) =
       Normal [{| id := id0; sanitizedId := sanitizeForHtml id0;
                  numbers := map number_of elements; source := id0 |}]) ∧
  ((∀ s : string, number_of (JStr s) = NaN ↔ starts_with_integer s = false) ∧
   number_of JNull = NaN ∧ (∀ b, number_of (JBool b) = NaN) ∧
   (∀ l, has_own "toString" l = false → number_of (JObj l) = NaN) ∧
   (∀ (v : json) (w : string) (z : Z) (rest : string),
      all_white_space w → safe_integer z → no_digit_ahead rest →
      ToString v = Normal (w +:+ string_of_Z z +:+ rest)%string →
      number_of v = Int z)).
Proof.
  split_and!.
  - intros gamesData. apply load_loop_throws.
  - intros status gamesData st [e He]. unfold fetchGames. simpl. by rewrite He.
  - intros props' id0 bets props acc Hshape. by apply load_loop_not_array.
  - intros id0 elements Hne Hflat Hprint.
    rewrite process_loads_cleanly.
    + cbn [properties mbind list_bind expected_games].
      destruct (String.eqb_spec id0 "_comment"); [done|]. by rewrite Hflat.
    + unfold loads_cleanly, processable. simpl.
      rewrite Hflat, Hprint. by rewrite orb_true_r.
  - intros s. rewrite (number_of_ToString (JStr s) s eq_refl).
    apply parseInt_string_NaN.
  - done.
  - by intros [|].
  - intros l Hown. unfold number_of, parseInt. cbn [ToString]. by rewrite Hown.
  - intros v w z rest Hw _ Hrest Hs. rewrite (number_of_ToString v _ Hs).
    by apply parseInt_string_leading.
Qed.

Lemma loader_reports_only_unprocessable_entries_witness :
  process (JObj [("T"%string, JArr [JNum 1; JNum 2; JStr "x"])]) =
    Normal [{| id := "T"; sanitizedId := sanitizeForHtml "T";
               numbers := map number_of [JNum 1; JNum 2; JStr "x"];
               source := "T" |}].
Proof.
  apply (proj1 (proj2 (proj2 (proj2 loader_reports_only_unprocessable_entries)))).
  - discriminate.
  - reflexivity.
  - reflexivity.
Defined.

(** * Further properties of the script *)

(** ** Sanitized ids *)

Lemma underscore_not_id_char : is_id_char "_" = false.
Proof. reflexivity. Qed.

(** X1. [sanitizeForHtml] keeps the length of the string, yields only
    letters, digits, dashes and underscores, changes nothing in a string
    that is already made of these, and so does nothing when applied a
    second time. *)
Theorem sanitizeForHtml_safe (str : string) :
  String.length (sanitizeForHtml str) = String.length str ∧
  Forall is_safe_char (list_ascii_of_string (sanitizeForHtml str)) ∧
  (sanitizeForHtml str = str ↔ Forall is_safe_char (list_ascii_of_string str)) ∧
  sanitizeForHtml (sanitizeForHtml str) = sanitizeForHtml str.
Proof.
  induction str as [|c str (IHlen & IHsafe & IHfix & IHidem)]; simpl.
  - split_and!; done.
  - split_and!.
    + by rewrite IHlen.
    + constructor; [|done]. unfold is_safe_char.
      destruct (is_id_char c) eqn:Hc; [by left|by right].
    + split.
      * intros Heq. injection Heq as Hc Hstr. constructor; [|by apply IHfix].
        unfold is_safe_char. destruct (is_id_char c) eqn:Hid; [by left|by right].
      * intros Hall. apply Forall_cons in Hall as [[Hid| ->] Hall].
        -- rewrite Hid. f_equal. by apply IHfix.
        -- rewrite underscore_not_id_char. f_equal. by apply IHfix.
    + rewrite IHidem. f_equal.
      destruct (is_id_char c) eqn:Hid; [by rewrite Hid|].
      by rewrite underscore_not_id_char.
Qed.

(** ** More on the selection *)

Lemma run_clicks_drawnNumbers (nums : list Z) : ∀ st : page,
  drawnNumbers (run st (clicks nums)) =
    foldl (fun d n => toggle n d) (drawnNumbers st) nums.
Proof.
  induction nums as [|n nums IH]; intros st; [done|].
  cbn [clicks map run foldl handle]. fold (clicks nums). fold (run (handleGridClick (Some n) st) (clicks nums)).
  rewrite IH. f_equal. unfold handleGridClick, updateAllUI.
  by rewrite renderGamesTable_drawnNumbers, drawnNumbers_set.
Qed.

Lemma toggles_fresh (nums : list Z) : ∀ drawn : gset Z,
  NoDup nums → (∀ n, n ∈ nums → n ∉ drawn) → size drawn + length nums ≤ 6 →
  foldl (fun d n => toggle n d) drawn nums = drawn ∪ list_to_set nums.
Proof.
  induction nums as [|n nums IH]; intros drawn Hnodup Hfresh Hroom.
  - simpl. by rewrite union_empty_r_L.
  - apply NoDup_cons in Hnodup as [Hn Hnodup]. simpl in Hroom |- *.
    assert (n ∉ drawn) as Hout by (apply Hfresh; by left).
    rewrite toggle_room by (done || lia).
    rewrite IH.
    + apply set_eq. intros x.
      rewrite !elem_of_union, elem_of_singleton. tauto.
    + done.
    + intros m Hm. rewrite elem_of_union, elem_of_singleton.
      intros [Hin| ->]; [|done]. apply (Hfresh m); [by right|done].
    + rewrite size_add by done. lia.
Qed.

(** X2. A click changes the selection at most at the clicked number and
    its size by at most one: down by one for a selected number, up by one
    for a new number while fewer than six are held, not at all
    otherwise. *)
Theorem toggle_touches_one_number (drawn : gset Z) (num : Z) :
  (∀ other, other ≠ num → (other ∈ toggle num drawn ↔ other ∈ drawn)) ∧
  size (toggle num drawn) =
    (if decide (num ∈ drawn) then size drawn - 1
     else if decide (size drawn < 6) then size drawn + 1 else size drawn).
Proof.
  unfold toggle. split.
  - intros other Hne. repeat case_decide; [|  |done].
    + rewrite elem_of_difference, elem_of_singleton. tauto.
    + rewrite elem_of_union, elem_of_singleton. tauto.
  - destruct (decide (num ∈ drawn)) as [Hin|Hout].
    + pose proof (size_remove _ _ Hin). lia.
    + destruct (decide (size drawn < 6)); [|done].
      rewrite size_add by done. lia.
Qed.

Lemma toggle_touches_one_number_witness :
  5%Z ∈ toggle 7%Z ({[5%Z]} : gset Z) ↔ 5%Z ∈ ({[5%Z]} : gset Z).
Proof.
  apply (proj1 (toggle_touches_one_number {[5%Z]} 7%Z) 5%Z). discriminate.
Defined.

(** X3. Starting from the freshly loaded page, clicks on up to six
    different numbers select exactly those numbers. *)
Theorem distinct_clicks_select_their_numbers (r : fetched) (nums : list Z) :
  NoDup nums → length nums ≤ 6 →
  drawnNumbers (run (init r) (clicks nums)) = list_to_set nums.
Proof.
  intros Hnodup Hlen.
  rewrite run_clicks_drawnNumbers, init_drawnNumbers.
  rewrite toggles_fresh.
  - by rewrite union_empty_l_L.
  - done.
  - intros n _. apply not_elem_of_empty.
  - rewrite size_empty. lia.
Qed.

Lemma distinct_clicks_select_their_numbers_witness :
  drawnNumbers (run page_A (clicks [3; 1; 2]%Z)) = list_to_set [3; 1; 2]%Z.
Proof.
  apply distinct_clicks_select_their_numbers.
  - repeat constructor; rewrite ?elem_of_cons, ?elem_of_nil; intros H;
      repeat destruct H as [H|H]; discriminate || done.
  - simpl. lia.
Defined.

(** ** The page with nothing selected *)

Lemma calculate_hits_empty (g : game) : calculate_hits ∅ g = no_hits g.
Proof.
  unfold calculate_hits, no_hits.
  assert (List.filter (fun num => has ∅ num) (numbers g) = []) as ->; [|done].
  induction (numbers g) as [|num nums IH]; [done|]. simpl.
  destruct num as [|z]; [done|]. simpl.
  rewrite bool_decide_eq_false_2; [done|]. apply not_elem_of_empty.
Qed.

Lemma gamesToRender_empty (games : list game) (checked : bool) :
  gamesToRender games ∅ checked = if checked then [] else map no_hits games.
Proof.
  unfold gamesToRender.
  assert (map (calculate_hits ∅) games = map no_hits games) as ->.
  { apply map_ext. intros g. apply calculate_hits_empty. }
  destruct checked; [|done].
  assert (List.filter (fun r => 0 <? hitsCount r) (map no_hits games) = []) as ->;
    [|done].
  by induction games.
Qed.

Lemma check_empty (games : list game) (checked : bool) :
  check games ∅ checked = Normal no_prizes.
Proof.
  unfold check. rewrite gamesToRender_empty.
  destruct checked; [done|]. by induction games.
Qed.

(** X4. When the load fails (the request is rejected, the status is not
    ok, the body is no JSON, or an entry cannot be processed) [fetchGames]
    writes the error row and loads no game, and the first render of [init]
    replaces the error row by the table of no games; the banner is hidden
    and nothing is celebrated. *)
Theorem failed_load_leaves_empty_page (r : fetched) :
  throws (try_fetchGames r) →
  gamesTableBody (fetchGames r initial) = ErrorLoadingGames ∧
  GAMES (fetchGames r initial) = [] ∧
  gamesTableBody (init r) = Rows [] ∧
  GAMES (init r) = [] ∧
  show (winnerBanner (init r)) = false ∧
  lastBestPrizeLevel (init r) = 0 ∧
  celebrations (init r) = [].
Proof.
  intros [e He]. unfold init, fetchGames. rewrite He. done.
Qed.

Lemma failed_load_leaves_empty_page_witness :
  gamesTableBody (fetchGames (Response false 404 None) initial) = ErrorLoadingGames ∧
  GAMES (fetchGames (Response false 404 None) initial) = [] ∧
  gamesTableBody (init (Response false 404 None)) = Rows [] ∧
  GAMES (init (Response false 404 None)) = [] ∧
  show (winnerBanner (init (Response false 404 None))) = false ∧
  lastBestPrizeLevel (init (Response false 404 None)) = 0 ∧
  celebrations (init (Response false 404 None)) = [].
Proof.
  apply failed_load_leaves_empty_page. by exists (HttpError 404).
Defined.

Lemma loaded_games (r : fetched) (games : list game) :
  try_fetchGames r = Normal games → GAMES (init r) = games.
Proof.
  intros Hload. unfold init, fetchGames. rewrite Hload.
  rewrite renderGamesTable_check.
  cbn [GAMES drawnNumbers filterSwitch set_GAMES initial].
  by rewrite check_empty.
Qed.

(** X5. After a load that succeeds the page holds the games of the file
    and lists every one of them, in load order, with no hit; nothing is
    selected, the banner is hidden and nothing has been celebrated. *)
Theorem loaded_page_lists_every_game (r : fetched) (games : list game) :
  try_fetchGames r = Normal games →
  GAMES (init r) = games ∧
  gamesTableBody (init r) = Rows (map no_hits games) ∧
  drawnNumbers (init r) = ∅ ∧
  show (winnerBanner (init r)) = false ∧
  lastBestPrizeLevel (init r) = 0 ∧
  celebrations (init r) = [].
Proof.
  intros Hload. unfold init, fetchGames. rewrite Hload.
  rewrite renderGamesTable_check.
  cbn [GAMES drawnNumbers filterSwitch set_GAMES initial].
  by rewrite check_empty, gamesToRender_empty.
Qed.

Lemma loaded_page_lists_every_game_witness :
  GAMES (init (Response true 200 (Some ticket_single))) =
    [{| id := "T"; sanitizedId := "T";
        numbers := map Int [1; 2; 3; 4; 5; 6]%Z; source := "T" |}] ∧
  gamesTableBody (init (Response true 200 (Some ticket_single))) =
    Rows (map no_hits
      [{| id := "T"; sanitizedId := "T";
          numbers := map Int [1; 2; 3; 4; 5; 6]%Z; source := "T" |}]).
Proof.
  destruct (loaded_page_lists_every_game (Response true 200 (Some ticket_single))
              [{| id := "T"; sanitizedId := "T";
                  numbers := map Int [1; 2; 3; 4; 5; 6]%Z; source := "T" |}])
    as (Hgames & Htable & _).
  - reflexivity.
  - split; [exact Hgames|exact Htable].
Defined.

(** X6. The clear button empties the selection and never fails: the
    table goes back to every game with no hit (or to no row when the
    filter is on), the banner is hidden, the stored level is 0, and the
    games, the switch and the celebrations so far stay as they were. *)
Theorem clear_resets_page (st : page) :
  drawnNumbers (handleClear st) = ∅ ∧
  gamesTableBody (handleClear st) =
    Rows (if filterSwitch st then [] else map no_hits (GAMES st)) ∧
  lastBestPrizeLevel (handleClear st) = 0 ∧
  show (winnerBanner (handleClear st)) = false ∧
  celebrations (handleClear st) = celebrations st ∧
  GAMES (handleClear st) = GAMES st ∧
  filterSwitch (handleClear st) = filterSwitch st.
Proof.
  unfold handleClear, updateAllUI. rewrite renderGamesTable_check.
  cbn [GAMES drawnNumbers filterSwitch set_drawnNumbers].
  rewrite check_empty, gamesToRender_empty. done.
Qed.

(** ** The tally: failure, counts and best tier *)

Lemma no_prizes_tiers (k : nat) :
  is_Some (winningGameIds no_prizes !! k) ↔ 4 ≤ k ≤ 6.
Proof.
  unfold no_prizes. cbn [winningGameIds].
  destruct (decide (k = 4)) as [->|]; [by split; [lia|eexists]|].
  destruct (decide (k = 5)) as [->|]; [by split; [lia|eexists]|].
  destruct (decide (k = 6)) as [->|]; [by split; [lia|eexists]|].
  rewrite !lookup_insert_ne, lookup_singleton_ne by done.
  split; [by intros [? ?]|lia].
Qed.

Lemma tally_game_outcome (t : tallies) (g : scored) :
  (∀ k, is_Some (winningGameIds t !! k) ↔ 4 ≤ k ≤ 6) →
  if decide (7 ≤ hitsCount g) then tally_game t g = Throw TypeError
  else ∃ t', tally_game t g = Normal t' ∧
             ∀ k, is_Some (winningGameIds t' !! k) ↔ 4 ≤ k ≤ 6.
Proof.
  intros Htiers. unfold tally_game.
  destruct (Nat.leb_spec 4 (hitsCount g)) as [Hprize|Hnone].
  - destruct (winningGameIds t !! hitsCount g) as [ids|] eqn:Hids.
    + assert (4 ≤ hitsCount g ≤ 6) as Hrange by (apply Htiers; by eexists).
      rewrite decide_False by lia. eexists. split; [done|].
      intros k. cbn [winningGameIds]. rewrite lookup_insert_is_Some.
      rewrite Htiers. destruct (decide (hitsCount g = k)); [lia|tauto].
    + rewrite decide_True; [done|].
      destruct (decide (7 ≤ hitsCount g)); [done|].
      assert (is_Some (winningGameIds t !! hitsCount g)) as [? Hsome]
        by (apply Htiers; lia).
      congruence.
  - rewrite decide_False by lia. by exists t.
Qed.

Lemma forEach_tally_outcome (rows : list scored) : ∀ t : tallies,
  (∀ k, is_Some (winningGameIds t !! k) ↔ 4 ≤ k ≤ 6) →
  if decide (Exists (fun r => 7 ≤ hitsCount r) rows)
  then forEach_tally rows t = Throw TypeError
  else ∃ t', forEach_tally rows t = Normal t'.
Proof.
  induction rows as [|g rows IH]; intros t Htiers.
  - rewrite decide_False by (intros Hex; inversion Hex). by exists t.
  - pose proof (tally_game_outcome t g Htiers) as Hg. cbn [forEach_tally].
    destruct (decide (7 ≤ hitsCount g)) as [Hseven|Hfewer].
    + rewrite decide_True by (by left). by rewrite Hg.
    + destruct Hg as (t' & -> & Htiers'). cbn [mbind completion_bind].
      specialize (IH t' Htiers').
      destruct (decide (Exists (fun r => 7 ≤ hitsCount r) rows)) as [Hex|Hnone].
      * by rewrite decide_True by (by right).
      * rewrite decide_False; [done|].
        rewrite Exists_cons. tauto.
Qed.

Lemma check_throws (games : list game) (drawn : gset Z) (checked : bool) :
  throws (check games drawn checked) ↔
  ∃ g, g ∈ games ∧ 7 ≤ hitsCount (calculate_hits drawn g).
Proof.
  assert (check games drawn checked = check games drawn false) as ->.
  { destruct checked; [apply check_filter_irrelevant|done]. }
  unfold check, gamesToRender.
  pose proof (forEach_tally_outcome (map (calculate_hits drawn) games)
                no_prizes no_prizes_tiers) as Hout.
  destruct (decide (Exists _ _)) as [Hex|Hnone].
  - rewrite Hout. split; [intros _|by exists TypeError].
    apply Exists_exists in Hex as (r & Hr & Hseven).
    apply list_elem_of_fmap in Hr as (g & -> & Hg). by exists g.
  - destruct Hout as [t' ->]. split; [by intros [e He]|].
    intros (g & Hg & Hseven). exfalso. apply Hnone.
    apply Exists_exists. exists (calculate_hits drawn g).
    split; [|done]. apply list_elem_of_fmap. by exists g.
Qed.

Lemma renderGamesTable_throws (st : page) :
  throws (renderGamesTable st) ↔
  ∃ g, g ∈ GAMES st ∧ 7 ≤ hitsCount (calculate_hits (drawnNumbers st) g).
Proof.
  rewrite <- (check_throws _ _ (filterSwitch st)).
  rewrite renderGamesTable_check.
  destruct (check _ _ _) as [t|e]; [|by split; intros _; eexists].
  split; intros [e He]; discriminate He.
Qed.

Lemma hitsCount_le_length (drawn : gset Z) (g : game) :
  hitsCount (calculate_hits drawn g) ≤ length (numbers g).
Proof. unfold calculate_hits. simpl. apply filter_length_le. Qed.

Lemma hitsCount_le_size (drawn : gset Z) (g : game) :
  NoDup (numbers g) → hitsCount (calculate_hits drawn g) ≤ size drawn.
Proof.
  intros Hnodup. unfold calculate_hits. cbn [hitsCount].
  set (picked := List.filter (fun num => has drawn num) (numbers g)).
  assert (∀ num, num ∈ picked → ∃ z, num = Int z ∧ z ∈ drawn) as Hpicked.
  { intros num Hin. apply list_elem_of_In, filter_In in Hin as [_ Hhas].
    by apply has_drawn_member in Hhas. }
  assert (NoDup picked) as Hnd.
  { apply NoDup_ListNoDup, List.NoDup_filter. by apply NoDup_ListNoDup. }
  rewrite <- (length_fmap integer_of picked).
  apply submseteq_length, NoDup_submseteq.
  - apply NoDup_fmap_2_strong; [|done].
    intros x y Hx Hy Heq.
    apply Hpicked in Hx as (zx & -> & _). apply Hpicked in Hy as (zy & -> & _).
    simpl in Heq. by rewrite Heq.
  - intros z Hz. apply list_elem_of_fmap in Hz as (num & -> & Hnum).
    apply Hpicked in Hnum as (z & -> & Hz). by apply elem_of_elements.
Qed.

(** X7. The render fails exactly when some game has seven or more hits,
    with the filter on or off; a click that brings a game to seven hits
    changes the selection and leaves the table, the banner, the stored
    level and the celebrations as they were. *)
Theorem render_fails_on_seven_hits :
  (∀ (games : list game) (drawn : gset Z) (checked : bool),
     throws (check games drawn checked) ↔
     ∃ g, g ∈ games ∧ 7 ≤ hitsCount (calculate_hits drawn g)) ∧
  (∀ st : page,
     throws (renderGamesTable st) ↔
     ∃ g, g ∈ GAMES st ∧ 7 ≤ hitsCount (calculate_hits (drawnNumbers st) g)) ∧
  (∀ (st : page) (num : Z) (g : game),
     g ∈ GAMES st →
     7 ≤ hitsCount (calculate_hits (toggle num (drawnNumbers st)) g) →
     handleGridClick (Some num) st =
       set_drawnNumbers (toggle num (drawnNumbers st)) st).
Proof.
  split_and!; [apply check_throws|apply renderGamesTable_throws|].
  intros st num g Hg Hseven. unfold handleGridClick, updateAllUI.
  destruct (proj2 (renderGamesTable_throws
                     (set_drawnNumbers (toggle num (drawnNumbers st)) st)))
    as [e ->]; [by exists g|done].
Qed.

Lemma render_fails_on_seven_hits_witness :
  handleGridClick (Some 1%Z) page_sevenfold =
    set_drawnNumbers (toggle 1%Z (drawnNumbers page_sevenfold)) page_sevenfold.
Proof.
  apply (proj2 (proj2 render_fails_on_seven_hits) page_sevenfold 1%Z
           {| id := "S"; sanitizedId := "S";
              numbers := map Int [1; 1; 1; 1; 1; 1; 1]%Z; source := "S" |}).
  - vm_compute. left.
  - vm_compute. lia.
Defined.

(** X8. The render cannot fail while at most six numbers are selected
    and every game has at most six numbers or no repeated number: a game
    never has more hits than it has numbers, nor, when its numbers are all
    different, more hits than numbers are selected. *)
Theorem render_succeeds_on_sound_games (st : page) :
  size (drawnNumbers st) ≤ 6 →
  Forall (fun g => length (numbers g) ≤ 6 ∨ NoDup (numbers g)) (GAMES st) →
  (∃ st', renderGamesTable st = Normal st') ∧
  (∀ g, g ∈ GAMES st →
     hitsCount (calculate_hits (drawnNumbers st) g) ≤ length (numbers g) ∧
     hitsCount (calculate_hits (drawnNumbers st) g) ≤ 6).
Proof.
  intros Hsize Hsound.
  assert (∀ g, g ∈ GAMES st → hitsCount (calculate_hits (drawnNumbers st) g) ≤ 6)
    as Hsix.
  { intros g Hg. rewrite Forall_forall in Hsound.
    destruct (Hsound g Hg) as [Hlen|Hnodup].
    - pose proof (hitsCount_le_length (drawnNumbers st) g). lia.
    - pose proof (hitsCount_le_size (drawnNumbers st) g Hnodup). lia. }
  split.
  - destruct (renderGamesTable st) as [st'|e] eqn:Hrender; [by exists st'|].
    assert (throws (renderGamesTable st)) as Hthrows by (by exists e).
    apply renderGamesTable_throws in Hthrows as (g & Hg & Hseven).
    specialize (Hsix g Hg). lia.
  - intros g Hg. split; [apply hitsCount_le_length|by apply Hsix].
Qed.

Lemma render_succeeds_on_sound_games_witness :
  ∃ st', renderGamesTable page_A_sena = Normal st'.
Proof.
  apply (render_succeeds_on_sound_games page_A_sena).
  - vm_compute. lia.
  - vm_compute. constructor; [|constructor]. left. lia.
Defined.

Lemma forEach_tally_best (rows : list scored) : ∀ t t' : tallies,
  forEach_tally rows t = Normal t' →
  bestPrizeThisCheck t ≤ bestPrizeThisCheck t' ∧
  (∀ r, r ∈ rows → 4 ≤ hitsCount r → hitsCount r ≤ bestPrizeThisCheck t') ∧
  (bestPrizeThisCheck t' = bestPrizeThisCheck t ∨
   ∃ r, r ∈ rows ∧ 4 ≤ hitsCount r ∧ hitsCount r = bestPrizeThisCheck t').
Proof.
  induction rows as [|g rows IH]; intros t t' Hrun.
  - injection Hrun as <-. split_and!; [done| |by left].
    intros r Hr. by apply elem_of_nil in Hr.
  - cbn [forEach_tally] in Hrun.
    destruct (tally_game t g) as [t1|] eqn:Hg; [|done].
    cbn [mbind completion_bind] in Hrun.
    destruct (IH _ _ Hrun) as (Hmono & Hall & Hsome). clear IH Hrun.
    assert (bestPrizeThisCheck t ≤ bestPrizeThisCheck t1 ∧
            (4 ≤ hitsCount g → hitsCount g ≤ bestPrizeThisCheck t1) ∧
            (bestPrizeThisCheck t1 = bestPrizeThisCheck t ∨
             4 ≤ hitsCount g ∧ hitsCount g = bestPrizeThisCheck t1))
      as (Hstep & Hg_le & Hg_some).
    { unfold tally_game in Hg.
      destruct (Nat.leb_spec 4 (hitsCount g)).
      - destruct (winningGameIds t !! hitsCount g); [|done].
        injection Hg as <-. cbn [bestPrizeThisCheck].
        destruct (Nat.ltb_spec (bestPrizeThisCheck t) (hitsCount g)); lia.
      - injection Hg as <-. lia. }
    split_and!.
    + lia.
    + intros r Hr Hprize. apply elem_of_cons in Hr as [->|Hr]; [|by apply Hall].
      specialize (Hg_le Hprize). lia.
    + destruct Hsome as [Heq|(r & Hr & Hprize & Heq)].
      * destruct Hg_some as [Heq'|[Hprize Heq']].
        -- left. lia.
        -- right. exists g. split_and!; [by left|done|lia].
      * right. exists r. split_and!; [by right|done|done].
Qed.

Lemma no_prizes_lookup (k : nat) :
  4 ≤ k ≤ 6 →
  winningGameIds no_prizes !! k = Some [] ∧ prizeCounts no_prizes !! k = Some 0.
Proof.
  intros Hk. assert (k = 4 ∨ k = 5 ∨ k = 6) as [->|[->| ->]] by lia; done.
Qed.

(** X9. In a completed tally the count of each tier is the number of
    games with that many hits, and it is the length of that tier's list of
    winning ids. *)
Theorem prize_counts_match_winner_lists (games : list game) (drawn : gset Z)
    (checked : bool) (t : tallies) (k : nat) :
  check games drawn checked = Normal t → 4 ≤ k ≤ 6 →
  ∃ ids, winningGameIds t !! k = Some ids ∧
         prizeCounts t !! k = Some (length ids) ∧
         length ids = length (with_hits k (map (calculate_hits drawn) games)).
Proof.
  intros Hcheck Hk.
  assert (check games drawn false = Normal t) as Hoff.
  { destruct checked; [by rewrite <- check_filter_irrelevant|done]. }
  unfold check, gamesToRender in Hoff.
  destruct (forEach_tally_tier _ _ _ k Hoff) as [Hids Hcount]; [lia|].
  destruct (no_prizes_lookup k Hk) as [Hno_ids Hno_count].
  rewrite Hno_ids in Hids. rewrite Hno_count in Hcount.
  cbn [fmap option_fmap option_map] in Hids, Hcount.
  eexists. split_and!; [exact Hids| |].
  - by rewrite Hcount, app_nil_l, length_map.
  - by rewrite app_nil_l, length_map.
Qed.

Lemma prize_counts_match_winner_lists_witness :
  ∃ t ids, check (GAMES page_A_sena) draw_1_to_6 false = Normal t ∧
           winningGameIds t !! 6 = Some ids ∧
           prizeCounts t !! 6 = Some (length ids).
Proof.
  destruct (check (GAMES page_A_sena) draw_1_to_6 false) as [t|e] eqn:Hcheck;
    [|by vm_compute in Hcheck].
  pose proof (prize_counts_match_winner_lists _ _ _ t 6 Hcheck) as H.
  destruct H as (ids & Hids & Hcount & _); [lia|].
  exists t, ids. split; [reflexivity|]. split; assumption.
Defined.

(** X10. The best tier of a completed tally is 0 when no game has four
    hits, and otherwise the highest hit count among the games, a number
    from 4 to 6 that some game attains. *)
Theorem best_tier_is_highest_hit_count (games : list game) (drawn : gset Z)
    (checked : bool) (t : tallies) :
  check games drawn checked = Normal t →
  (bestPrizeThisCheck t = 0 ∨ 4 ≤ bestPrizeThisCheck t ≤ 6) ∧
  (bestPrizeThisCheck t = 0 ↔
   ∀ g, g ∈ games → hitsCount (calculate_hits drawn g) < 4) ∧
  (∀ g, g ∈ games → 4 ≤ hitsCount (calculate_hits drawn g) →
     hitsCount (calculate_hits drawn g) ≤ bestPrizeThisCheck t) ∧
  (4 ≤ bestPrizeThisCheck t →
   ∃ g, g ∈ games ∧ hitsCount (calculate_hits drawn g) = bestPrizeThisCheck t).
Proof.
  intros Hcheck.
  assert (∀ g, g ∈ games → hitsCount (calculate_hits drawn g) ≤ 6) as Hsix.
  { intros g Hg. destruct (decide (7 ≤ hitsCount (calculate_hits drawn g))); [|lia].
    assert (throws (check games drawn checked)) as [e He]
      by (apply check_throws; by exists g).
    congruence. }
  assert (check games drawn false = Normal t) as Hoff.
  { destruct checked; [by rewrite <- check_filter_irrelevant|done]. }
  unfold check, gamesToRender in Hoff.
  destruct (forEach_tally_best _ _ _ Hoff) as (_ & Hall & Hsome).
  cbn [bestPrizeThisCheck no_prizes] in Hsome.
  assert (∀ g, g ∈ games → 4 ≤ hitsCount (calculate_hits drawn g) →
            hitsCount (calculate_hits drawn g) ≤ bestPrizeThisCheck t) as Hmax.
  { intros g Hg Hprize. apply Hall; [|done]. apply list_elem_of_fmap. by exists g. }
  assert (bestPrizeThisCheck t = 0 ∨
          ∃ g, g ∈ games ∧ 4 ≤ hitsCount (calculate_hits drawn g) ∧
               hitsCount (calculate_hits drawn g) = bestPrizeThisCheck t) as Hbest.
  { destruct Hsome as [?|(r & Hr & Hprize & Heq)]; [by left|right].
    apply list_elem_of_fmap in Hr as (g & -> & Hg). by exists g. }
  split_and!.
  - destruct Hbest as [?|(g & Hg & Hprize & Heq)]; [by left|right].
    specialize (Hsix g Hg). lia.
  - split.
    + intros Hzero g Hg.
      destruct (decide (4 ≤ hitsCount (calculate_hits drawn g))); [|lia].
      specialize (Hmax g Hg). lia.
    + intros Hnone. destruct Hbest as [?|(g & Hg & Hprize & Heq)]; [done|].
      specialize (Hnone g Hg). lia.
  - done.
  - intros Hprize. destruct Hbest as [?|(g & Hg & _ & Heq)]; [lia|by exists g].
Qed.

Lemma best_tier_is_highest_hit_count_witness :
  ∃ t, check (GAMES page_A_sena) draw_1_to_6 true = Normal t ∧
       (bestPrizeThisCheck t = 0 ∨ 4 ≤ bestPrizeThisCheck t ≤ 6).
Proof.
  destruct (check (GAMES page_A_sena) draw_1_to_6 true) as [t|e] eqn:Hcheck;
    [|by vm_compute in Hcheck].
  exists t. split; [reflexivity|].
  apply (best_tier_is_highest_hit_count _ _ _ t Hcheck).
Defined.

(** ** What every page of a session satisfies *)

Lemma check_best_range (games : list game) (drawn : gset Z) (checked : bool)
    (t : tallies) :
  check games drawn checked = Normal t →
  bestPrizeThisCheck t = 0 ∨ 4 ≤ bestPrizeThisCheck t ≤ 6.
Proof.
  intros Hcheck.
  assert (check games drawn false = Normal t) as Hoff.
  { destruct checked; [by rewrite <- check_filter_irrelevant|done]. }
  unfold check, gamesToRender in Hoff.
  destruct (forEach_tally_best _ _ _ Hoff) as (_ & _ & [Hzero|(r & Hr & Hprize & Heq)]).
  - by left.
  - right. apply list_elem_of_fmap in Hr as (g & -> & Hg).
    destruct (decide (7 ≤ hitsCount (calculate_hits drawn g))); [|lia].
    assert (throws (check games drawn checked)) as [e He]
      by (apply check_throws; by exists g).
    congruence.
Qed.

Lemma page_eq (st st' : page) :
  drawnNumbers st = drawnNumbers st' →
  lastBestPrizeLevel st = lastBestPrizeLevel st' →
  GAMES st = GAMES st' →
  filterSwitch st = filterSwitch st' →
  gamesTableBody st = gamesTableBody st' →
  winnerBanner st = winnerBanner st' →
  celebrations st = celebrations st' →
  st = st'.
Proof. destruct st, st'. simpl. by intros -> -> -> -> -> -> ->. Qed.

Lemma check_any_filter (games : list game) (drawn : gset Z) (b b' : bool) :
  check games drawn b = check games drawn b'.
Proof.
  destruct b, b'; try done;
    [apply check_filter_irrelevant|symmetry; apply check_filter_irrelevant].
Qed.

(** The render establishes both invariants from the first. *)
Lemma render_keeps_in_step (st : page) :
  banner_ok st →
  banner_ok (settle st (renderGamesTable st)) ∧
  synced (settle st (renderGamesTable st)).
Proof.
  intros Hok. rewrite renderGamesTable_check.
  destruct (check (GAMES st) (drawnNumbers st) (filterSwitch st)) as [t|e] eqn:Hcheck.
  - pose proof (check_best_range _ _ _ _ Hcheck) as Hrange.
    cbn [mbind completion_bind settle].
    destruct Hok as (Hshow & Hlevel & H6 & H5 & H4 & Hlog).
    unfold banner_ok, synced, updateWinnerUI.
    destruct (Nat.ltb_spec (bestPrizeThisCheck t) 4) as [Hlow|Hprize];
      cbn [show winnerBanner lastBestPrizeLevel celebrations winnerTitle GAMES
           drawnNumbers filterSwitch gamesTableBody set_gamesTableBody].
    + split.
      * split_and!; try done; lia.
      * intros t' Ht'. rewrite Hcheck in Ht'. injection Ht' as <-.
        split_and!; [lia|done|lia].
    + split.
      * split_and!.
        -- split; [done|lia].
        -- lia.
        -- by intros ->.
        -- by intros ->.
        -- by intros ->.
        -- destruct (_ <? _); [|done].
           apply Forall_app. split; [done|]. constructor; [lia|constructor].
      * intros t' Ht'. rewrite Hcheck in Ht'. injection Ht' as <-.
        split_and!; [done|done|]. intros _. done.
  - cbn [mbind completion_bind settle]. split; [done|].
    intros t Ht. congruence.
Qed.

Lemma handle_in_step (st : page) (e : event) :
  banner_ok st → synced st →
  banner_ok (handle st e) ∧ synced (handle st e).
Proof.
  intros Hok Hsync. destruct e as [[num|]| |]; cbn [handle].
  - unfold handleGridClick, updateAllUI. by apply render_keeps_in_step.
  - done.
  - unfold handleClear, updateAllUI. by apply render_keeps_in_step.
  - unfold handleFilterChange. by apply render_keeps_in_step.
Qed.

Lemma init_in_step (r : fetched) : banner_ok (init r) ∧ synced (init r).
Proof.
  unfold init. apply render_keeps_in_step.
  unfold fetchGames. destruct (try_fetchGames r);
    (split_and!; cbn; try done; lia).
Qed.

Lemma run_in_step (es : list event) : ∀ st : page,
  banner_ok st → synced st →
  banner_ok (run st es) ∧ synced (run st es).
Proof.
  induction es as [|e es IH]; intros st Hok Hsync; [done|].
  cbn [run foldl]. destruct (handle_in_step st e Hok Hsync) as [Hok' Hsync'].
  by apply IH.
Qed.

(** X11. On every page of a session (after [init] and any sequence of
    clicks, clears and filter changes) the stored level is 0, 4, 5 or 6,
    the banner is shown exactly when it is not 0, the title names the
    stored tier, and every celebration so far was for tier 4, 5 or 6. *)
Theorem banner_follows_stored_level (r : fetched) (es : list event) :
  let st := run (init r) es in
  (show (winnerBanner st) = true ↔ 4 ≤ lastBestPrizeLevel st) ∧
  (lastBestPrizeLevel st = 0 ∨ 4 ≤ lastBestPrizeLevel st ≤ 6) ∧
  (lastBestPrizeLevel st = 6 → winnerTitle (winnerBanner st) = "SENA!"%string) ∧
  (lastBestPrizeLevel st = 5 → winnerTitle (winnerBanner st) = "QUINA!"%string) ∧
  (lastBestPrizeLevel st = 4 → winnerTitle (winnerBanner st) = "QUADRA!"%string) ∧
  Forall (fun tier => 4 ≤ tier ≤ 6) (celebrations st).
Proof.
  destruct (init_in_step r) as [Hok Hsync].
  destruct (run_in_step es (init r) Hok Hsync) as [Hrun _].
  exact Hrun.
Qed.

Lemma banner_follows_stored_level_witness :
  winnerTitle (winnerBanner
    (run (init (Response true 200 (Some ticket_A))) (clicks [1; 2; 3; 4; 5; 6]%Z))) =
    "SENA!"%string.
Proof.
  apply (proj1 (proj2 (proj2
    (banner_follows_stored_level (Response true 200 (Some ticket_A))
       (clicks [1; 2; 3; 4; 5; 6]%Z))))).
  vm_compute. reflexivity.
Defined.

(** X12. On every page of a session, whenever the tally of the games,
    selection and switch of the page completes, the stored level is its
    best tier, the table shows its rows, and for a tier of 4 or more the
    banner shows its title, counts and winning ids. *)
Theorem page_reflects_selection (r : fetched) (es : list event) (t : tallies) :
  let st := run (init r) es in
  check (GAMES st) (drawnNumbers st) (filterSwitch st) = Normal t →
  lastBestPrizeLevel st = bestPrizeThisCheck t ∧
  gamesTableBody st =
    Rows (gamesToRender (GAMES st) (drawnNumbers st) (filterSwitch st)) ∧
  (4 ≤ bestPrizeThisCheck t → winnerBanner st = banner_of t).
Proof.
  destruct (init_in_step r) as [Hok Hsync].
  destruct (run_in_step es (init r) Hok Hsync) as [_ Hrun].
  intros st. apply Hrun.
Qed.

Lemma page_reflects_selection_witness :
  lastBestPrizeLevel
    (run (init (Response true 200 (Some ticket_A))) (clicks [1; 2; 3; 4; 5; 6]%Z)) =
    bestPrizeThisCheck tally_A_sena.
Proof.
  apply (page_reflects_selection (Response true 200 (Some ticket_A))
           (clicks [1; 2; 3; 4; 5; 6]%Z) tally_A_sena).
  vm_compute. reflexivity.
Defined.

Lemma filter_change_render (st : page) :
  banner_ok st → synced st →
  announcement (handleFilterChange st) = announcement st ∧
  (∀ t, check (GAMES st) (drawnNumbers st) (filterSwitch st) = Normal t →
     gamesTableBody (handleFilterChange st) =
       Rows (gamesToRender (GAMES st) (drawnNumbers st) (negb (filterSwitch st)))) ∧
  ((∃ e, check (GAMES st) (drawnNumbers st) (filterSwitch st) = Throw e) →
     gamesTableBody (handleFilterChange st) = gamesTableBody st) ∧
  drawnNumbers (handleFilterChange st) = drawnNumbers st ∧
  GAMES (handleFilterChange st) = GAMES st ∧
  filterSwitch (handleFilterChange st) = negb (filterSwitch st).
Proof.
  intros (Hshow & Hlevel & _) Hsync. unfold handleFilterChange.
  rewrite renderGamesTable_check.
  cbn [GAMES drawnNumbers filterSwitch set_filterSwitch].
  rewrite (check_any_filter _ _ (negb (filterSwitch st)) (filterSwitch st)).
  destruct (check (GAMES st) (drawnNumbers st) (filterSwitch st)) as [t|e] eqn:Hcheck.
  - destruct (Hsync t Hcheck) as (Hlast & Htable & Hbanner).
    cbn [mbind completion_bind settle]. unfold announcement, updateWinnerUI.
    destruct (Nat.ltb_spec (bestPrizeThisCheck t) 4) as [Hlow|Hprize];
      cbn [show winnerBanner lastBestPrizeLevel celebrations GAMES drawnNumbers
           filterSwitch gamesTableBody set_gamesTableBody set_filterSwitch].
    + split_and!; try done.
      * assert (show (winnerBanner st) = false) as Hhidden.
        { destruct (show (winnerBanner st)); [|done].
          assert (4 ≤ lastBestPrizeLevel st) by (by apply Hshow). lia. }
        destruct (winnerBanner st) as [shown title counts ids]. simpl in *.
        rewrite Hhidden.
        assert (lastBestPrizeLevel st = 0) as -> by lia. done.
      * by intros [e He].
    + split_and!; try done.
      * rewrite <- Hlast, Nat.ltb_irrefl. rewrite Hbanner by done.
        unfold banner_of. by rewrite Hlast.
      * by intros [e He].
  - cbn [mbind completion_bind settle]. split_and!; try done.
Qed.

(** X13. On every page of a session a change of the filter switch fires
    no celebration and leaves the banner, the stored level, the selection
    and the games as they were. *)
Theorem filter_change_never_celebrates (r : fetched) (es : list event) :
  let st := run (init r) es in
  celebrations (handle st FilterChange) = celebrations st ∧
  winnerBanner (handle st FilterChange) = winnerBanner st ∧
  lastBestPrizeLevel (handle st FilterChange) = lastBestPrizeLevel st ∧
  drawnNumbers (handle st FilterChange) = drawnNumbers st ∧
  GAMES (handle st FilterChange) = GAMES st.
Proof.
  intros st.
  destruct (init_in_step r) as [Hok Hsync].
  destruct (run_in_step es (init r) Hok Hsync) as [Hok' Hsync'].
  destruct (filter_change_render st Hok' Hsync') as (Hann & _ & _ & Hdrawn & Hgames & _).
  unfold announcement in Hann. injection Hann as Hbanner Hlevel Hlog.
  done.
Qed.

(** X14. On every page of a session two changes of the filter switch in
    a row give back the page as it was. *)
Theorem filter_change_twice_restores (r : fetched) (es : list event) :
  run (init r) (es ++ [FilterChange; FilterChange]) = run (init r) es.
Proof.
  unfold run. rewrite foldl_app. cbn [foldl].
  fold (run (init r) es). set (st := run (init r) es).
  destruct (init_in_step r) as [Hok Hsync].
  destruct (run_in_step es (init r) Hok Hsync) as [Hok' Hsync'].
  fold st in Hok', Hsync'.
  destruct (handle_in_step st FilterChange Hok' Hsync') as [Hok1 Hsync1].
  cbn [handle] in *.
  destruct (filter_change_render st Hok' Hsync')
    as (Hann & Htable & Hstale & Hdrawn & Hgames & Hswitch).
  destruct (filter_change_render _ Hok1 Hsync1)
    as (Hann2 & Htable2 & Hstale2 & Hdrawn2 & Hgames2 & Hswitch2).
  rewrite Hgames, Hdrawn, Hswitch in Htable2, Hstale2.
  rewrite (check_any_filter _ _ (negb (filterSwitch st)) (filterSwitch st))
    in Htable2, Hstale2.
  rewrite Hann in Hann2. unfold announcement in Hann2.
  injection Hann2 as Hbanner Hlevel Hlog.
  apply page_eq; try congruence.
  - rewrite Hswitch2, Hswitch. apply negb_involutive.
  - destruct (check (GAMES st) (drawnNumbers st) (filterSwitch st)) as [t|e] eqn:Hcheck.
    + rewrite (Htable2 t eq_refl), negb_involutive.
      symmetry. by destruct (Hsync' t Hcheck) as (_ & Hrows & _).
    + rewrite Hstale2 by (by exists e). apply Hstale. by exists e.
Qed.

Lemma render_games_and_log (st : page) :
  GAMES (settle st (renderGamesTable st)) = GAMES st ∧
  (celebrations (settle st (renderGamesTable st)) = celebrations st ∨
   celebrations (settle st (renderGamesTable st)) =
     celebrations st ++ [lastBestPrizeLevel (settle st (renderGamesTable st))]).
Proof.
  rewrite renderGamesTable_check.
  destruct (check _ _ _) as [t|e]; cbn [mbind completion_bind settle];
    [|by split; [|left]].
  unfold updateWinnerUI.
  destruct (bestPrizeThisCheck t <? 4);
    cbn [GAMES celebrations lastBestPrizeLevel set_gamesTableBody].
  - split; [done|by left].
  - destruct (lastBestPrizeLevel st <? bestPrizeThisCheck t).
    + split; [done|by right].
    + split; [done|by left].
Qed.

Lemma handle_games_and_log (st : page) (e : event) :
  GAMES (handle st e) = GAMES st ∧
  (celebrations (handle st e) = celebrations st ∨
   celebrations (handle st e) =
     celebrations st ++ [lastBestPrizeLevel (handle st e)]).
Proof.
  destruct e as [[num|]| |]; cbn [handle].
  - exact (render_games_and_log (set_drawnNumbers (toggle num (drawnNumbers st)) st)).
  - by split; [|left].
  - exact (render_games_and_log (set_drawnNumbers ∅ st)).
  - exact (render_games_and_log (set_filterSwitch (negb (filterSwitch st)) st)).
Qed.

(** X15. No listener changes the loaded games, and none removes a
    celebration: each event adds at most one, for the tier stored by that
    event, so the celebrations before a run of events are a prefix of
    those after it. *)
Theorem session_keeps_games_and_log (st : page) (es : list event) :
  GAMES (run st es) = GAMES st ∧
  celebrations st `prefix_of` celebrations (run st es) ∧
  (∀ e, celebrations (handle st e) = celebrations st ∨
        celebrations (handle st e) =
          celebrations st ++ [lastBestPrizeLevel (handle st e)]).
Proof.
  split_and!; [| |intros e; apply handle_games_and_log].
  - revert st. induction es as [|e es IH]; intros st; [done|].
    cbn [run foldl]. fold (run (handle st e) es).
    rewrite IH. apply handle_games_and_log.
  - revert st. induction es as [|e es IH]; intros st; [done|].
    cbn [run foldl]. fold (run (handle st e) es).
    etrans; [|apply IH].
    destruct (handle_games_and_log st e) as [_ [->| ->]]; [done|].
    by apply prefix_app_r.
Qed.

(** ** Integers of the file *)

(** X16. [parseInt] reads back every safe integer (magnitude at most
    2^53 - 1) from its decimal text, also after white space and before
    text that does not start with a digit; so a safe integer of the file
    is loaded as itself, whether the file writes it as a number or as a
    string. *)
Theorem parseInt_reads_back_integers (z : Z) :
  safe_integer z →
  (∀ w rest : string,
     all_white_space w → no_digit_ahead rest →
     parseInt_string (w +:+ string_of_Z z +:+ rest) = Int z) ∧
  number_of (JNum z) = Int z ∧
  number_of (JStr (string_of_Z z)) = Int z.
Proof.
  intros _. split_and!.
  - intros w rest Hw Hrest. by apply parseInt_string_leading.
  - apply number_of_JNum.
  - unfold number_of, parseInt. cbn [ToString mbind completion_bind].
    rewrite <- (append_empty_r (string_of_Z z)). by apply parseInt_string_of_Z.
Qed.

Lemma parseInt_reads_back_integers_witness :
  parseInt_string ("  " +:+ string_of_Z (-12) +:+ "abc") = Int (-12).
Proof.
  assert (safe_integer (-12)) as Hsafe by (unfold safe_integer; lia).
  apply (proj1 (parseInt_reads_back_integers (-12) Hsafe)).
  - repeat constructor.
  - reflexivity.
Defined.

(** ** Files without malformed entries *)

Lemma all_JNum (l : list json) :
  forallb (fun n => match n with JNum _ => true | _ => false end) l = true →
  ∃ zs, l = map JNum zs.
Proof.
  induction l as [|v l IH]; [by exists []|]. cbn [forallb].
  intros Hall. apply andb_true_iff in Hall as [Hv Hall].
  destruct (IH Hall) as [zs ->]. destruct v as [| |z| | |]; try done.
  by exists (z :: zs).
Qed.

Lemma valid_bet_shape (v : json) :
  valid_bet v = true → ∃ zs, v = JArr (map JNum zs) ∧ length zs = 6.
Proof.
  destruct v as [| | | |l|]; try done. cbn [valid_bet].
  intros Hv. apply andb_true_iff in Hv as [Hlen Hall].
  destruct (all_JNum l Hall) as [zs ->]. exists zs. split; [done|].
  apply Nat.eqb_eq in Hlen. by rewrite length_map in Hlen.
Qed.

Lemma map_number_of_JNum (zs : list Z) :
  map number_of (map JNum zs) = map Int zs.
Proof.
  rewrite map_map. apply map_ext. intros z. apply number_of_JNum.
Qed.

Lemma forallb_printable_JNum (zs : list Z) :
  forallb printable (map JNum zs) = true.
Proof. by induction zs. Qed.

(** An entry that is not malformed is processable, and its games have
    six integers each. *)
Lemma sound_entry (id0 : string) (bets : json) :
  malformed bets = false →
  processable bets = true ∧
  Forall (fun g => ∃ zs, numbers g = map Int zs ∧ length zs = 6)
    (expected_games (id0, bets)).
Proof.
  unfold malformed. intros Hsound.
  apply negb_false_iff, orb_true_iff in Hsound as [Hsingle|Hmulti].
  - destruct (valid_bet_shape bets Hsingle) as (zs & -> & Hlen).
    assert (first_isArray (map JNum zs) = false) as Hflat by (by destruct zs).
    split.
    + cbn [processable]. rewrite Hflat. apply forallb_printable_JNum.
    + cbn [expected_games]. destruct (String.eqb id0 "_comment"); [constructor|].
      rewrite Hflat. constructor; [|constructor].
      exists zs. cbn [numbers]. by rewrite map_number_of_JNum.
  - destruct bets as [| | | |[|first rest]|]; try done.
    assert (∀ b, b ∈ first :: rest → ∃ zs, b = JArr (map JNum zs) ∧ length zs = 6)
      as Hbets.
    { intros b Hb. apply valid_bet_shape.
      rewrite forallb_forall in Hmulti. by apply Hmulti, list_elem_of_In. }
    assert (first_isArray (first :: rest) = true) as Hhead.
    { destruct (Hbets first) as (zs & -> & _); [by left|done]. }
    split.
    + cbn [processable]. rewrite Hhead. apply forallb_forall.
      intros b Hb. apply list_elem_of_In, Hbets in Hb as (zs & -> & _).
      apply forallb_printable_JNum.
    + cbn [expected_games]. destruct (String.eqb id0 "_comment"); [constructor|].
      rewrite Hhead. apply Forall_forall. intros g Hg.
      apply elem_of_lookup_imap in Hg as (i & b & -> & Hb).
      apply list_elem_of_lookup_2, Hbets in Hb as (zs & -> & Hlen).
      exists zs. cbn [numbers bet_numbers]. by rewrite map_number_of_JNum.
Qed.

Lemma sound_file (gamesData : json) :
  (∀ id0 bets, (id0, bets) ∈ properties gamesData →
     id0 ≠ "_comment"%string → malformed bets = false) →
  process gamesData = Normal (properties gamesData ≫= expected_games) ∧
  Forall (fun g => ∃ zs, numbers g = map Int zs ∧ length zs = 6)
    (properties gamesData ≫= expected_games).
Proof.
  intros Hsound. split.
  - apply process_loads_cleanly, loads_cleanly_spec.
    intros id0 bets Hin Hne. by apply (sound_entry id0), (Hsound id0).
  - apply Forall_forall. intros g Hg.
    apply list_elem_of_bind in Hg as ([id0 bets] & Hg & Hin).
    destruct (decide (id0 = "_comment"%string)) as [->|Hne]; [by inversion Hg|].
    destruct (sound_entry id0 bets (Hsound id0 bets Hin Hne)) as [_ Hall].
    rewrite Forall_forall in Hall. by apply Hall.
Qed.

Lemma run_GAMES (es : list event) : ∀ st : page, GAMES (run st es) = GAMES st.
Proof.
  induction es as [|e es IH]; intros st; [done|].
  cbn [run foldl]. fold (run (handle st e) es).
  rewrite IH. apply handle_games_and_log.
Qed.





(** X18. With such a file loaded, no sequence of clicks, clears and
    filter changes makes the render fail: on every page of the session the
    tally of the current selection completes, and no game has more than
    six hits. *)
Theorem sound_file_always_renders (status : Z) (gamesData : json)
    (es : list event) :
  (∀ id0 bets, (id0, bets) ∈ properties gamesData →
     id0 ≠ "_comment"%string → malformed bets = false) →
  let st := run (init (Response true status (Some gamesData))) es in
  (∃ t, check (GAMES st) (drawnNumbers st) (filterSwitch st) = Normal t) ∧
  (∀ g, g ∈ GAMES st → hitsCount (calculate_hits (drawnNumbers st) g) ≤ 6).
Proof.
  intros Hsound st. destruct (sound_file gamesData Hsound) as [Hload Hall].
  assert (GAMES st = properties gamesData ≫= expected_games) as Hgames.
  { unfold st. rewrite run_GAMES.
    by rewrite (loaded_games (Response true status (Some gamesData)) _ Hload). }
  assert (∀ g, g ∈ GAMES st → hitsCount (calculate_hits (drawnNumbers st) g) ≤ 6)
    as Hsix.
  { intros g Hg. rewrite Hgames in Hg. rewrite Forall_forall in Hall.
    destruct (Hall g Hg) as (zs & Hnums & Hlen).
    pose proof (hitsCount_le_length (drawnNumbers st) g) as Hle.
    rewrite Hnums, length_map in Hle. lia. }
  split; [|done].
  destruct (check _ _ _) as [t|e] eqn:Hcheck; [by exists t|].
  assert (throws (check (GAMES st) (drawnNumbers st) (filterSwitch st))) as Hthrows
    by (by exists e).
  apply check_throws in Hthrows as (g & Hg & Hseven).
  specialize (Hsix g Hg). lia.
Qed.

Lemma sound_file_always_renders_witness :
  ∃ t, check (GAMES (run (init (Response true 200 (Some ticket_multi))) (clicks [7%Z])))
         (drawnNumbers (run (init (Response true 200 (Some ticket_multi))) (clicks [7%Z])))
         (filterSwitch (run (init (Response true 200 (Some ticket_multi))) (clicks [7%Z])))
       = Normal t.
Proof.
  apply (sound_file_always_renders 200 ticket_multi (clicks [7%Z])).
  intros id0 bets Hin Hne.
  apply elem_of_cons in Hin as [Heq|Hin]; [by injection Heq as -> ->|].
  apply elem_of_cons in Hin as [Heq|Hin]; [by injection Heq as -> ->|].
  by apply elem_of_nil in Hin.
Defined.

(** ** The loader, entry by entry *)

Lemma load_loop_cons (entry : string * json) (props : list (string * json))
    (acc : list game) :
  load_loop (entry :: props) acc = load_loop [entry] acc ≫= load_loop props.
Proof.
  destruct entry as [id0 bets]. cbn [load_loop].
  destruct (String.eqb id0 "_comment"); [done|].
  destruct bets as [| | | |elements|]; try done.
  destruct (first_isArray elements).
  - by destruct (forEach_bets id0 elements 0 acc).
  - by destruct (mapM parseInt elements).
Qed.

Lemma load_loop_app (props1 props2 : list (string * json)) : ∀ acc : list game,
  load_loop (props1 ++ props2) acc = load_loop props1 acc ≫= load_loop props2.
Proof.
  induction props1 as [|entry props1 IH]; intros acc; [done|].
  cbn [app]. rewrite (load_loop_cons entry (props1 ++ props2)).
  rewrite (load_loop_cons entry props1), completion_bind_assoc.
  destruct (load_loop [entry] acc) as [games|e]; [|done]. apply IH.
Qed.

Lemma load_loop_acc (props : list (string * json)) : ∀ acc : list game,
  load_loop props acc = (fun new => acc ++ new) <$> load_loop props [].
Proof.
  induction props as [|[id0 bets] props IH]; intros acc.
  - cbn. by rewrite app_nil_r.
  - destruct (decide (id0 = "_comment"%string ∨ processable bets = true))
      as [Hok|Hbad].
    + rewrite !load_loop_cons_processable by done.
      rewrite (IH (acc ++ _)), (IH ([] ++ _)).
      destruct (load_loop props []) as [new|e]; [|done].
      cbn [fmap completion_fmap]. by rewrite app_nil_l, app_assoc.
    + assert (id0 ≠ "_comment"%string ∧ processable bets = false) as [Hne Hproc].
      { split; [intros ?; apply Hbad; by left|].
        destruct (processable bets); [|done]. exfalso. apply Hbad. by right. }
      by rewrite !load_loop_cons_unprocessable.
Qed.

(** X19. The loader works through the file entry by entry and only ever
    appends: loading two lists of entries one after the other is loading
    the first and then the second, the games of the whole are those of the
    first followed by those of the second, and an error in either is an
    error of the whole. *)
Theorem loader_appends_entry_by_entry (props1 props2 : list (string * json)) :
  (∀ acc : list game,
     load_loop (props1 ++ props2) acc = load_loop props1 acc ≫= load_loop props2) ∧
  (∀ acc : list game,
     load_loop props1 acc = (fun new => acc ++ new) <$> load_loop props1 []) ∧
  process (JObj (props1 ++ props2)) =
    process (JObj props1) ≫= fun games1 =>
    (fun games2 => games1 ++ games2) <$> process (JObj props2).
Proof.
  split_and!.
  - apply load_loop_app.
  - apply load_loop_acc.
  - unfold process. cbn [properties]. rewrite load_loop_app.
    destruct (load_loop props1 []) as [games1|e]; [|done].
    cbn [mbind completion_bind]. apply load_loop_acc.
Qed.

Lemma process_Normal_loads_cleanly (gamesData : json) (games : list game) :
  process gamesData = Normal games → loads_cleanly gamesData = true.
Proof.
  intros Hload. apply loads_cleanly_spec. intros id0 bets Hin Hne.
  destruct (processable bets) eqn:Hproc; [done|].
  assert (throws (process gamesData)) as [e He].
  { apply load_loop_throws. by exists id0, bets. }
  congruence.
Qed.

(** X20. Every game a completed load yields points back to its ticket:
    its source is a key of the file other than [_comment] whose value is a
    sequence, and its id and sanitized id are that key and the sanitized
    key, both alone for a flat sequence, both followed by a dash and the
    same 1-based index for a sequence of sequences. *)
Theorem loaded_game_names_its_ticket (gamesData : json) (games : list game)
    (g : game) :
  process gamesData = Normal games → g ∈ games →
  ∃ elements,
    (source g, JArr elements) ∈ properties gamesData ∧
    source g ≠ "_comment"%string ∧
    ((first_isArray elements = false ∧
      id g = source g ∧ sanitizedId g = sanitizeForHtml (source g)) ∨
     (first_isArray elements = true ∧
      ∃ i, i < length elements ∧
           id g = source g +:+ "-" +:+ string_of_nat (i + 1) ∧
           sanitizedId g =
             sanitizeForHtml (source g) +:+ "-" +:+ string_of_nat (i + 1))).
Proof.
  intros Hload Hg.
  pose proof (process_Normal_loads_cleanly _ _ Hload) as Hclean.
  rewrite (process_loads_cleanly _ Hclean) in Hload. injection Hload as <-.
  apply list_elem_of_bind in Hg as ([id0 bets] & Hg & Hin).
  cbn [expected_games] in Hg.
  destruct (String.eqb_spec id0 "_comment") as [->|Hne]; [by inversion Hg|].
  destruct bets as [| | | |elements|]; try (by inversion Hg).
  exists elements. destruct (first_isArray elements) eqn:Hshape.
  - apply elem_of_lookup_imap in Hg as (i & b & -> & Hb). cbn [source id sanitizedId].
    split_and!; [done|done|]. right. split; [done|].
    exists i. split_and!; [|done|done]. by apply lookup_lt_Some in Hb.
  - apply list_elem_of_singleton in Hg as ->. cbn [source id sanitizedId].
    split_and!; [done|done|]. by left.
Qed.

Lemma loaded_game_names_its_ticket_witness :
  ∃ elements,
    ("T"%string, JArr elements) ∈ properties ticket_multi ∧
    first_isArray elements = true.
Proof.
  destruct (loaded_game_names_its_ticket ticket_multi
              [{| id := "T-1"; sanitizedId := "T-1";
                  numbers := map Int [1; 2; 3; 4; 5; 6]%Z; source := "T" |};
               {| id := "T-2"; sanitizedId := "T-2";
                  numbers := map Int [7; 8; 9; 10; 11; 12]%Z; source := "T" |}]
              {| id := "T-2"; sanitizedId := "T-2";
                 numbers := map Int [7; 8; 9; 10; 11; 12]%Z; source := "T" |})
    as (elements & Hin & _ & [(_ & Hid & _)|(Hshape & _)]).
  - reflexivity.
  - right. left.
  - discriminate Hid.
  - by exists elements.
Defined.

(** ** Clicks that come from the grid *)

Lemma toggle_subset (num x : Z) (drawn : gset Z) :
  x ∈ toggle num drawn → x ∈ drawn ∨ x = num.
Proof.
  unfold toggle. repeat case_decide.
  - rewrite elem_of_difference. tauto.
  - rewrite elem_of_union, elem_of_singleton. tauto.
  - tauto.
Qed.

Lemma handle_on_grid (st : page) (e : event) :
  from_grid e →
  (∀ n, n ∈ drawnNumbers st → (1 ≤ n ≤ 60)%Z) →
  ∀ n, n ∈ drawnNumbers (handle st e) → (1 ≤ n ≤ 60)%Z.
Proof.
  intros Hgrid Hin n. destruct e as [[num|]| |]; cbn [handle].
  - unfold handleGridClick, updateAllUI.
    rewrite renderGamesTable_drawnNumbers, drawnNumbers_set.
    intros [Hn| ->]%toggle_subset; [by apply Hin|done].
  - apply Hin.
  - unfold handleClear, updateAllUI.
    rewrite renderGamesTable_drawnNumbers, drawnNumbers_set.
    intros Hn. by apply not_elem_of_empty in Hn.
  - unfold handleFilterChange. rewrite renderGamesTable_drawnNumbers. apply Hin.
Qed.

(** X21. When every click on the grid carries a number from 1 to 60, as
    the buttons of the grid do, the selection holds only numbers from 1 to
    60 on every page of the session. *)
Theorem selection_stays_on_the_grid (r : fetched) (es : list event) (n : Z) :
  Forall from_grid es →
  n ∈ drawnNumbers (run (init r) es) → (1 ≤ n ≤ 60)%Z.
Proof.
  intros Hgrid.
  assert (∀ st : page,
            (∀ m, m ∈ drawnNumbers st → (1 ≤ m ≤ 60)%Z) →
            ∀ m, m ∈ drawnNumbers (run st es) → (1 ≤ m ≤ 60)%Z) as Hrun.
  { induction Hgrid as [|e es He _ IH]; intros st Hst; [done|].
    cbn [run foldl]. apply IH. by apply handle_on_grid. }
  apply Hrun. intros m. rewrite init_drawnNumbers.
  intros Hm. by apply not_elem_of_empty in Hm.
Qed.

Lemma selection_stays_on_the_grid_witness : (1 ≤ 7 ≤ 60)%Z.
Proof.
  apply (selection_stays_on_the_grid (Response true 200 (Some ticket_A))
           (clicks [7%Z]) 7%Z).
  - repeat constructor; lia.
  - vm_compute. reflexivity.
Defined.

(** ** The number grid *)

Lemma length_bool_filter {A} (P : A → Prop) `{∀ x, Decision (P x)} (l : list A) :
  length (List.filter (fun x => bool_decide (P x)) l) = length (filter P l).
Proof.
  induction l as [|x l IH]; [done|]. cbn [List.filter].
  rewrite filter_cons. destruct (decide (P x)) as [Hx|Hx].
  - rewrite bool_decide_eq_true_2 by done. simpl. by rewrite IH.
  - by rewrite bool_decide_eq_false_2.
Qed.

Lemma grid_labels :
  Forall (fun i => String.length (padStart2 (string_of_Z i)) = 2 ∧
                   parseInt_string (padStart2 (string_of_Z i)) = Int i)
    (seqZ 1 60).
Proof.
  assert (forallb
            (fun i =>
               (String.length (padStart2 (string_of_Z i)) =? 2)
               && match parseInt_string (padStart2 (string_of_Z i)) with
                  | Int z => (z =? i)%Z
                  | NaN => false
                  end) (seqZ 1 60) = true) as Hall
    by (vm_compute; reflexivity).
  rewrite forallb_forall in Hall. apply Forall_forall. intros i Hi.
  apply list_elem_of_In, Hall, andb_true_iff in Hi as [Hlen Hparse].
  apply Nat.eqb_eq in Hlen. split; [done|].
  destruct (parseInt_string _) as [|z]; [done|].
  apply Z.eqb_eq in Hparse. by rewrite Hparse.
Qed.

(** X22. The grid has sixty buttons; the button at position [k] carries
    the number [k + 1], which [parseInt] reads back from its [data-number]
    attribute and from its two-character label alike; it is marked
    selected exactly when that number is in the selection, so with a
    selection of numbers from 1 to 60 as many buttons are marked as
    numbers are selected. *)
Theorem grid_shows_the_selection (drawn : gset Z) :
  length (renderNumberGrid drawn) = 60 ∧
  (∀ (k : nat) (b : grid_button),
     renderNumberGrid drawn !! k = Some b →
     (1 ≤ Z.of_nat k + 1 ≤ 60)%Z ∧
     button_number b = Int (Z.of_nat k + 1) ∧
     parseInt_string (textContent b) = Int (Z.of_nat k + 1) ∧
     String.length (textContent b) = 2 ∧
     (selected_class b = true ↔ (Z.of_nat k + 1)%Z ∈ drawn)) ∧
  ((∀ n, n ∈ drawn → (1 ≤ n ≤ 60)%Z) →
   length (List.filter selected_class (renderNumberGrid drawn)) = size drawn).
Proof.
  unfold renderNumberGrid. split_and!.
  - by rewrite length_map, length_seqZ.
  - intros k b Hb. rewrite list_lookup_fmap in Hb.
    destruct (seqZ 1 60 !! k) as [i|] eqn:Hi; [|done].
    injection Hb as <-. apply lookup_seqZ in Hi as [-> Hk].
    pose proof grid_labels as Hlabels. rewrite Forall_forall in Hlabels.
    destruct (Hlabels (1 + Z.of_nat k)%Z) as [Hlen Hlabel].
    { apply elem_of_seqZ. lia. }
    replace (Z.of_nat k + 1)%Z with (1 + Z.of_nat k)%Z by lia.
    cbn [textContent selected_class]. unfold button_number. cbn [dataset_number].
    split_and!; [lia|lia| |done|done|by rewrite bool_decide_eq_true].
    rewrite <- (append_empty_r (string_of_Z _)). by apply parseInt_string_of_Z.
  - intros Hgrid.
    assert (length (List.filter selected_class
              (map (fun i => {| textContent := padStart2 (string_of_Z i);
                                dataset_number := string_of_Z i;
                                selected_class := bool_decide (i ∈ drawn) |})
                   (seqZ 1 60))) =
            length (List.filter (fun i => bool_decide (i ∈ drawn)) (seqZ 1 60))) as ->.
    { induction (seqZ 1 60) as [|i l IH]; [done|]. cbn [map List.filter selected_class].
      destruct (bool_decide (i ∈ drawn)); simpl; by rewrite IH. }
    rewrite length_bool_filter. unfold size, set_size. cbn [compose].
    apply Permutation_length, NoDup_Permutation.
    + apply NoDup_filter, NoDup_seqZ.
    + apply NoDup_elements.
    + intros i. rewrite list_elem_of_filter, elem_of_seqZ, elem_of_elements.
      split; [tauto|]. intros Hi. split; [done|]. specialize (Hgrid i Hi). lia.
Qed.

Lemma grid_shows_the_selection_witness :
  length (List.filter selected_class (renderNumberGrid draw_1_to_6)) =
    size draw_1_to_6.
Proof.
  apply (proj2 (proj2 (grid_shows_the_selection draw_1_to_6))).
  intros n Hn. unfold draw_1_to_6 in Hn.
  rewrite !elem_of_union, !elem_of_singleton in Hn. lia.
Defined.

(** ** The selection display *)

Lemma sort_insert_permutation {A} (compareFn : A → A → Z) (x : A) (l : list A) :
  sort_insert compareFn x l ≡ₚ x :: l.
Proof.
  induction l as [|y l IH]; simpl; [done|].
  destruct (0 <? compareFn x y)%Z; [|done].
  rewrite IH. apply Permutation_swap.
Qed.

Lemma sort_permutation {A} (compareFn : A → A → Z) (l : list A) :
  sort compareFn l ≡ₚ l.
Proof.
  induction l as [|x l IH]; simpl; [done|].
  by rewrite sort_insert_permutation, IH.
Qed.

Lemma sort_insert_ascending (x : Z) (l : list Z) :
  StronglySorted Z.le l → StronglySorted Z.le (sort_insert ascending x l).
Proof.
  induction 1 as [|y l Hsorted IH Hall]; simpl.
  - repeat constructor.
  - unfold ascending at 1. destruct (Z.ltb_spec 0 (x - y)) as [Hlt|Hge].
    + constructor; [done|].
      rewrite sort_insert_permutation. constructor; [lia|done].
    + constructor; [by constructor|].
      constructor; [lia|]. eapply Forall_impl; [exact Hall|].
      intros z Hyz. simpl in Hyz. lia.
Qed.

Lemma sort_ascending (l : list Z) : StronglySorted Z.le (sort ascending l).
Proof.
  induction l as [|x l IH]; simpl; [constructor|].
  by apply sort_insert_ascending.
Qed.

Lemma sort_ascending_unique (l l' : list Z) :
  l ≡ₚ l' → sort ascending l = sort ascending l'.
Proof.
  intros Hperm. apply (StronglySorted_unique_strong Z.le).
  - intros x y _ _ Hxy Hyx. lia.
  - apply sort_ascending.
  - apply sort_ascending.
  - by rewrite !sort_permutation.
Qed.

Lemma length_append (s1 s2 : string) :
  String.length (s1 +:+ s2) = String.length s1 + String.length s2.
Proof. induction s1 as [|c s1 IH]; [done|]. rewrite append_cons. simpl. by rewrite IH. Qed.

Lemma length_padStart2 (s : string) : 2 ≤ String.length (padStart2 s).
Proof.
  unfold padStart2. destruct s as [|c [|c' s]]; simpl; lia.
Qed.

Lemma length_join_cons (separator x : string) (l : list string) :
  String.length x ≤ String.length (join separator (x :: l)).
Proof.
  destruct l as [|y l]; [done|].
  change (join separator (x :: y :: l))
    with (x +:+ separator +:+ join separator (y :: l)).
  rewrite length_append. lia.
Qed.

Lemma sorted_without_repeats (l : list Z) :
  StronglySorted Z.le l → NoDup l → StronglySorted Z.lt l.
Proof.
  induction 1 as [|x l Hsorted IH Hall]; intros Hnodup; [constructor|].
  apply NoDup_cons in Hnodup as [Hx Hnodup].
  constructor; [by apply IH|].
  rewrite Forall_forall in Hall |- *. intros y Hy.
  specialize (Hall y Hy). assert (x ≠ y) by (by intros ->). lia.
Qed.

Lemma ascending_without_repeats (l : list Z) : StronglySorted Z.lt l → NoDup l.
Proof.
  induction 1 as [|x l Hsorted IH Hall]; [constructor|].
  constructor; [|done]. intros Hx.
  rewrite Forall_forall in Hall. specialize (Hall x Hx). lia.
Qed.

(** The text of a joined list of two-character labels: its length, the
    label at every third position and the dash after it. *)
Lemma join_labels (l : list string) :
  Forall (fun x => String.length x = 2) l → l ≠ [] →
  String.length (join "-" l) = 3 * length l - 1 ∧
  ∀ (i : nat) (x : string), l !! i = Some x →
    substring (3 * i) 2 (join "-" l) = x ∧
    (S i < length l → String.get (3 * i + 2) (join "-" l) = Some "-"%char).
Proof.
  induction l as [|x l IH]; [done|]. intros Hall _.
  apply Forall_cons in Hall as [Hx Hall].
  destruct x as [|a [|b [|c x]]]; try done.
  destruct l as [|y l].
  - split; [done|]. intros i x Hi. destruct i as [|i]; [|done].
    injection Hi as <-. split; [reflexivity|]. simpl. lia.
  - destruct IH as [IHlen IHpos]; [done|done|].
    change (join "-" (String a (String b "") :: y :: l))
      with (String a (String b (String "-" (join "-" (y :: l))))).
    split.
    + cbn [String.length]. rewrite IHlen. cbn [length]. lia.
    + intros i x Hi. destruct i as [|i].
      * injection Hi as <-. split; reflexivity.
      * destruct (IHpos i x Hi) as [Hsub Hget].
        replace (3 * S i) with (S (S (S (3 * i)))) by lia.
        replace (S (S (S (3 * i))) + 2) with (S (S (S (3 * i + 2)))) by lia.
        cbn [substring String.get]. split; [exact Hsub|].
        intros Hlt. apply Hget. cbn [length] in Hlt |- *. lia.
Qed.

(** X23. The selection display shows a single dash exactly when nothing
    is selected, and otherwise the two-character labels of the selected
    numbers in strictly ascending order, each once, joined by dashes,
    whatever the order in which the numbers were clicked.  With a
    selection from 1 to 60 the text has three characters per number less
    one: the label of the i-th smallest number stands at position 3i,
    [parseInt] reads that number back from it, and a dash follows every
    label but the last. *)
Theorem display_lists_selection_ascending (drawn : gset Z) :
  StronglySorted Z.lt (sortedNumbers drawn) ∧
  (∀ n, n ∈ sortedNumbers drawn ↔ n ∈ drawn) ∧
  length (sortedNumbers drawn) = size drawn ∧
  (∀ l, l ≡ₚ elements drawn → sort ascending l = sortedNumbers drawn) ∧
  (renderResultDisplay drawn = "-"%string ↔ drawn = ∅) ∧
  (∀ l : list Z,
     StronglySorted Z.lt l → (∀ n, n ∈ l ↔ n ∈ drawn) → drawn ≠ ∅ →
     renderResultDisplay drawn = join "-" (map label l)) ∧
  (drawn ≠ ∅ → (∀ n, n ∈ drawn → (1 ≤ n ≤ 60)%Z) →
   String.length (renderResultDisplay drawn) = 3 * size drawn - 1 ∧
   ∀ (i : nat) (n : Z), sortedNumbers drawn !! i = Some n →
     substring (3 * i) 2 (renderResultDisplay drawn) = label n ∧
     parseInt_string (substring (3 * i) 2 (renderResultDisplay drawn)) = Int n ∧
     (S i < size drawn →
      String.get (3 * i + 2) (renderResultDisplay drawn) = Some "-"%char)).
Proof.
  assert (sortedNumbers drawn ≡ₚ elements drawn) as Hperm
    by apply sort_permutation.
  assert (StronglySorted Z.lt (sortedNumbers drawn)) as Hsorted.
  { apply sorted_without_repeats; [apply sort_ascending|].
    rewrite Hperm. apply NoDup_elements. }
  assert (∀ n, n ∈ sortedNumbers drawn ↔ n ∈ drawn) as Hmem.
  { intros n. by rewrite Hperm, elem_of_elements. }
  assert (drawn ≠ ∅ →
          renderResultDisplay drawn = join "-" (map label (sortedNumbers drawn)))
    as Htext.
  { intros Hne. unfold renderResultDisplay.
    destruct (sortedNumbers drawn) as [|x l] eqn:Hnumbers; [|reflexivity].
    destruct Hne. apply leibniz_equiv, elements_empty_inv.
    symmetry. by apply Permutation_nil_l. }
  split_and!.
  - exact Hsorted.
  - exact Hmem.
  - by rewrite Hperm.
  - intros l Hl. by apply sort_ascending_unique.
  - unfold renderResultDisplay.
    destruct (sortedNumbers drawn) as [|x l] eqn:Hnumbers.
    + split; [intros _|done].
      apply leibniz_equiv, elements_empty_inv.
      symmetry. by apply Permutation_nil_l.
    + split.
      * intros Hdash.
        pose proof (length_join_cons "-" (padStart2 (string_of_Z x))
                      (map (fun n => padStart2 (string_of_Z n)) l)) as Hlen.
        pose proof (length_padStart2 (string_of_Z x)).
        cbn [map] in Hdash. rewrite Hdash in Hlen. simpl in Hlen. lia.
      * intros ->. rewrite elements_empty in Hperm.
        by apply Permutation_nil_r in Hperm.
  - intros l Hl Hl_mem Hne. rewrite (Htext Hne). do 2 f_equal.
    apply (StronglySorted_unique_strong Z.lt); [|done|done|].
    + intros x y _ _ Hxy Hyx. lia.
    + apply NoDup_Permutation.
      * by apply ascending_without_repeats.
      * by apply ascending_without_repeats.
      * intros n. by rewrite Hmem, Hl_mem.
  - intros Hne Hgrid. rewrite (Htext Hne).
    assert (Forall (fun x => String.length x = 2) (map label (sortedNumbers drawn)))
      as Hlabels.
    { apply Forall_forall. intros x Hx.
      apply list_elem_of_fmap in Hx as (n & -> & Hn).
      apply Hmem, Hgrid in Hn.
      pose proof grid_labels as Hall. rewrite Forall_forall in Hall.
      apply (Hall n), elem_of_seqZ. lia. }
    assert (map label (sortedNumbers drawn) ≠ []) as Hsome.
    { intros Hnil. apply (f_equal length) in Hnil.
      rewrite length_map, Hperm in Hnil.
      destruct Hne. by apply leibniz_equiv, size_empty_inv. }
    destruct (join_labels _ Hlabels Hsome) as [Hlen Hpos].
    rewrite length_map in Hlen, Hpos.
    assert (length (sortedNumbers drawn) = size drawn) as Hsize
      by (by rewrite Hperm).
    rewrite Hsize in Hlen, Hpos.
    split; [exact Hlen|]. intros i n Hi.
    destruct (Hpos i (label n)) as [Hsub Hget].
    { by rewrite list_lookup_fmap, Hi. }
    rewrite Hsub. split_and!; [done| |done].
    apply list_elem_of_lookup_2, Hmem, Hgrid in Hi.
    pose proof grid_labels as Hall. rewrite Forall_forall in Hall.
    apply (Hall n), elem_of_seqZ. lia.
Qed.

Lemma display_lists_selection_ascending_witness :
  substring (3 * 2) 2 (renderResultDisplay draw_1_to_6) = label 3.
Proof.
  assert (draw_1_to_6 ≠ ∅) as Hne.
  { intros Hempty. apply (f_equal size) in Hempty.
    vm_compute in Hempty. discriminate Hempty. }
  assert (∀ n, n ∈ draw_1_to_6 → (1 ≤ n ≤ 60)%Z) as Hgrid.
  { apply (bool_decide_eq_true (set_Forall (fun n => (1 ≤ n ≤ 60)%Z) draw_1_to_6)).
    vm_compute. reflexivity. }
  assert (sortedNumbers draw_1_to_6 !! 2 = Some 3%Z) as Hthird
    by (vm_compute; reflexivity).
  destruct (proj2 (proj2 (proj2 (proj2 (proj2 (proj2
              (display_lists_selection_ascending draw_1_to_6))))))
             Hne Hgrid) as [_ Hpos].
  exact (proj1 (Hpos 2 3%Z Hthird)).
Defined.

(** ** Unselecting a number *)

Lemma filter_length_mono {A} (f f' : A → bool) (l : list A) :
  (∀ x, f x = true → f' x = true) →
  length (List.filter f l) ≤ length (List.filter f' l).
Proof.
  intros Himpl. induction l as [|x l IH]; [done|]. cbn [List.filter].
  destruct (f x) eqn:Hf.
  - rewrite (Himpl x Hf). simpl. lia.
  - destruct (f' x); simpl; lia.
Qed.

Lemma hitsCount_mono (drawn drawn' : gset Z) (g : game) :
  drawn' ⊆ drawn →
  hitsCount (calculate_hits drawn' g) ≤ hitsCount (calculate_hits drawn g).
Proof.
  intros Hsub. unfold calculate_hits. cbn [hitsCount].
  apply filter_length_mono. intros num Hhas.
  apply has_drawn_member in Hhas as (z & -> & Hz).
  apply has_drawn_member. exists z. split; [done|]. by apply Hsub.
Qed.

Lemma check_best_mono (games : list game) (drawn drawn' : gset Z)
    (checked checked' : bool) (t t' : tallies) :
  drawn' ⊆ drawn →
  check games drawn checked = Normal t →
  check games drawn' checked' = Normal t' →
  bestPrizeThisCheck t' ≤ bestPrizeThisCheck t.
Proof.
  intros Hsub Hcheck Hcheck'.
  rewrite (check_any_filter _ _ checked false) in Hcheck.
  rewrite (check_any_filter _ _ checked' false) in Hcheck'.
  unfold check, gamesToRender in Hcheck, Hcheck'.
  destruct (forEach_tally_best _ _ _ Hcheck) as (_ & Hall & _).
  destruct (forEach_tally_best _ _ _ Hcheck') as (_ & _ & [Hzero|(r & Hr & Hprize & Heq)]).
  - cbn [bestPrizeThisCheck no_prizes] in Hzero. lia.
  - apply list_elem_of_fmap in Hr as (g & -> & Hg).
    pose proof (hitsCount_mono drawn drawn' g Hsub) as Hmono.
    assert (hitsCount (calculate_hits drawn g) ≤ bestPrizeThisCheck t); [|lia].
    apply Hall; [|lia]. apply list_elem_of_fmap. by exists g.
Qed.

(** X24. On a page of a session whose tally completes, a click on a
    selected number removes it, fires no celebration and does not raise
    the stored level. *)
Theorem unselecting_never_celebrates (r : fetched) (es : list event) (num : Z)
    (t : tallies) :
  let st := run (init r) es in
  check (GAMES st) (drawnNumbers st) (filterSwitch st) = Normal t →
  num ∈ drawnNumbers st →
  drawnNumbers (handleGridClick (Some num) st) = drawnNumbers st ∖ {[num]} ∧
  celebrations (handleGridClick (Some num) st) = celebrations st ∧
  lastBestPrizeLevel (handleGridClick (Some num) st) ≤ lastBestPrizeLevel st.
Proof.
  intros st Hcheck Hin.
  destruct (init_in_step r) as [Hok Hsync].
  destruct (run_in_step es (init r) Hok Hsync) as [_ Hsync'].
  fold st in Hsync'. destruct (Hsync' t Hcheck) as (Hlast & _ & _).
  unfold handleGridClick, updateAllUI. rewrite (toggle_member _ _ Hin).
  split; [by rewrite renderGamesTable_drawnNumbers|].
  rewrite renderGamesTable_check.
  cbn [GAMES drawnNumbers filterSwitch set_drawnNumbers].
  destruct (check (GAMES st) (drawnNumbers st ∖ {[num]}) (filterSwitch st))
    as [t'|e] eqn:Hcheck'; cbn [mbind completion_bind settle]; [|done].
  assert (bestPrizeThisCheck t' ≤ bestPrizeThisCheck t) as Hle.
  { eapply (check_best_mono _ (drawnNumbers st) (drawnNumbers st ∖ {[num]}));
      [|exact Hcheck|exact Hcheck'].
    intros x. rewrite elem_of_difference. tauto. }
  rewrite updateWinnerUI_celebrations, updateWinnerUI_lastBest.
  cbn [celebrations lastBestPrizeLevel set_gamesTableBody set_drawnNumbers].
  destruct (Nat.ltb_spec (bestPrizeThisCheck t') 4); [split; [done|lia]|].
  destruct (Nat.ltb_spec (lastBestPrizeLevel st) (bestPrizeThisCheck t')); [lia|].
  split; [done|lia].
Qed.

Lemma unselecting_never_celebrates_witness :
  celebrations
    (handleGridClick (Some 6%Z)
       (run (init (Response true 200 (Some ticket_A))) (clicks [1; 2; 3; 4; 5; 6]%Z))) =
  celebrations
    (run (init (Response true 200 (Some ticket_A))) (clicks [1; 2; 3; 4; 5; 6]%Z)).
Proof.
  apply (unselecting_never_celebrates (Response true 200 (Some ticket_A))
           (clicks [1; 2; 3; 4; 5; 6]%Z) 6%Z tally_A_sena).
  - vm_compute. reflexivity.
  - vm_compute. reflexivity.
Defined.
